(** * Adaptive search component: rate limiter, result cache, search
    strategies and the search orchestrator of
    [src/src/filter-bug/FilterPanel.tsx] (AdvancedSearchComponent).

    Time ([Date.now()]) is an explicit argument [now]; a JS [Map] is an
    association list kept in insertion order with unique keys; strings are
    Stdlib strings (one [ascii] per UTF-16 unit, which is exact for the
    ASCII queries used below). *)

From Stdlib Require Import String Ascii List ZArith Bool Lia.
Import ListNotations.

Open Scope string_scope.
Open Scope Z_scope.

(* ------------------------------------------------------------------ *)
(** ** JS string helpers *)

(** [String.prototype.toLowerCase] on ASCII. *)
Definition lower_ascii (c : ascii) : ascii :=
  let n := nat_of_ascii c in
  if (65 <=? n)%nat && (n <=? 90)%nat then ascii_of_nat (n + 32) else c.

Fixpoint toLowerCase (s : string) : string :=
  match s with
  | EmptyString => EmptyString
  | String c s' => String (lower_ascii c) (toLowerCase s')
  end.

(** [hay.includes(needle)]. *)
Fixpoint includes (hay needle : string) : bool :=
  prefix needle hay ||
  match hay with
  | EmptyString => false
  | String _ hay' => includes hay' needle
  end.

(** [s.startsWith(p)]. *)
Definition startsWith (s p : string) : bool := prefix p s.

(** JS white space (ASCII part) for [String.prototype.trim]. *)
Definition is_ws (c : ascii) : bool :=
  match nat_of_ascii c with
  | 9 | 10 | 11 | 12 | 13 | 32 => true
  | _ => false
  end%nat.

Fixpoint trim_left (s : string) : string :=
  match s with
  | EmptyString => EmptyString
  | String c s' => if is_ws c then trim_left s' else s
  end.

Definition str_rev (s : string) : string :=
  string_of_list_ascii (rev (list_ascii_of_string s)).

Definition trim (s : string) : string :=
  str_rev (trim_left (str_rev (trim_left s))).

(** Truthiness of a string: only [""] is falsy. *)
Definition str_truthy (s : string) : bool := negb (String.eqb s "").

(** [Z] length of a string ([s.length]). *)
Definition js_length (s : string) : Z := Z.of_nat (String.length s).

(** [arr.slice(0, n)]. *)
Definition slice0 {A} (l : list A) (n : Z) : list A :=
  let len := Z.of_nat (List.length l) in
  let e := if n <? 0 then Z.max (len + n) 0 else Z.min n len in
  firstn (Z.to_nat e) l.

(* ------------------------------------------------------------------ *)
(** ** JS [Map<string, V>] in insertion order *)

Module JsMap.

Definition t (V : Type) := list (string * V).

Fixpoint get {V} (k : string) (m : t V) : option V :=
  match m with
  | [] => None
  | (k', v) :: m' => if String.eqb k' k then Some v else get k m'
  end.

(** [m.set(k, v)]: overwrite in place, or append at the end. *)
Fixpoint set {V} (k : string) (v : V) (m : t V) : t V :=
  match m with
  | [] => [(k, v)]
  | (k', v') :: m' =>
      if String.eqb k' k then (k', v) :: m' else (k', v') :: set k v m'
  end.

Definition delete {V} (k : string) (m : t V) : t V :=
  filter (fun p => negb (String.eqb (fst p) k)) m.

Definition keys {V} (m : t V) : list string := map fst m.

Definition size {V} (m : t V) : nat := List.length m.

End JsMap.

(* ------------------------------------------------------------------ *)
(** ** [createRateLimiter(limit, windowMs)] *)

Module RateLimiter.

(** [requests : number[]]. *)
Definition t := list Z.

(** [requests.splice(i, 1)]. *)
Fixpoint splice1 (i : nat) (l : list Z) : list Z :=
  match i, l with
  | _, [] => []
  | O, _ :: l' => l'
  | S i', x :: l' => x :: splice1 i' l'
  end.

(** The body of [cleanup]: [for (let i = requests.length - 1; i >= 0; i--)
    if (requests[i] <= cutoff) requests.splice(i, 1);], [i] counting the
    iterations left. *)
Fixpoint cleanup_loop (cutoff : Z) (i : nat) (reqs : t) : t :=
  match i with
  | O => reqs
  | S i' =>
      let reqs' := if nth i' reqs 0 <=? cutoff then splice1 i' reqs else reqs in
      cleanup_loop cutoff i' reqs'
  end.

Definition cleanup (windowMs now : Z) (reqs : t) : t :=
  cleanup_loop (now - windowMs) (List.length reqs) reqs.

Definition isLimited (limit windowMs now : Z) (reqs : t) : bool * t :=
  let r := cleanup windowMs now reqs in
  (Z.of_nat (List.length r) >=? limit, r).

Definition record (now : Z) (reqs : t) : t := app reqs [now].

Definition reset (reqs : t) : t := [].

Definition remaining (limit windowMs now : Z) (reqs : t) : Z * t :=
  let r := cleanup windowMs now reqs in
  (Z.max 0 (limit - Z.of_nat (List.length r)), r).

End RateLimiter.

(* ------------------------------------------------------------------ *)
(** ** [createSearchCache(duration, maxSize)] *)

Module SearchCache.

Record CacheEntry (A : Type) := { data : list A; timestamp : Z }.
Arguments data {A}.
Arguments timestamp {A}.

Definition t (A : Type) := JsMap.t (CacheEntry A).

Section Ops.
Context {A : Type} (duration maxSize : Z).

Definition get (now : Z) (query : string) (c : t A) : option (list A) * t A :=
  match JsMap.get query c with
  | None => (None, c)
  | Some entry =>
      if now - timestamp entry >? duration
      then (None, JsMap.delete query c)
      else (Some (data entry), c)
  end.

Definition set (now : Z) (query : string) (d : list A) (c : t A) : t A :=
  let c1 :=
    if Z.of_nat (JsMap.size c) >=? maxSize then
      match JsMap.keys c with
      | firstKey :: _ => if str_truthy firstKey then JsMap.delete firstKey c else c
      | [] => c
      end
    else c in
  JsMap.set query {| data := d; timestamp := now |} c1.

Fixpoint fuzzy_loop (now : Z) (lowerQuery : string) (es : t A) : option (list A) :=
  match es with
  | [] => None
  | (cachedQuery, entry) :: es' =>
      if now - timestamp entry >? duration then fuzzy_loop now lowerQuery es'
      else
        let lowerCached := toLowerCase cachedQuery in
        if startsWith lowerQuery lowerCached || includes lowerCached lowerQuery
        then Some (data entry)
        else fuzzy_loop now lowerQuery es'
  end.

Definition fuzzyMatch (now : Z) (query : string) (c : t A) : option (list A) :=
  fuzzy_loop now (toLowerCase query) c.

Definition clear (c : t A) : t A := [].

Definition size (c : t A) : nat := JsMap.size c.

End Ops.

End SearchCache.

(* ------------------------------------------------------------------ *)
(** ** Users, configuration, results *)

Record Company := { company_name : string }.

Record User := {
  user_id : Z;
  user_name : string;
  user_email : string;
  user_company : Company
}.

(** [keyof User], as listed in [searchFields]. *)
Inductive UserField := FId | FName | FEmail | FCompany.

(** A JS primitive, and the JS value [user[field]] (an object is given by
    its [Object.values]). *)
Inductive JsPrim := PNum (z : Z) | PStr (s : string).

Inductive JsValue := JsNum (z : Z) | JsStr (s : string) | JsObj (vals : list JsPrim).

Definition user_field (u : User) (f : UserField) : JsValue :=
  match f with
  | FId => JsNum (user_id u)
  | FName => JsStr (user_name u)
  | FEmail => JsStr (user_email u)
  | FCompany => JsObj [PStr (company_name (user_company u))]
  end.

(** The [searchFields.some((field) => ...)] predicate shared by
    [performApiSearch] and [performLocalSearch]. *)
Definition field_matches (lowerQuery : string) (v : JsValue) : bool :=
  match v with
  | JsStr s => includes (toLowerCase s) lowerQuery
  | JsObj vs =>
      existsb (fun v => match v with
                        | PStr s => includes (toLowerCase s) lowerQuery
                        | PNum _ => false
                        end) vs
  | JsNum _ => false
  end.

Definition user_matches (searchFields : list UserField) (lowerQuery : string) (u : User) : bool :=
  existsb (fun f => field_matches lowerQuery (user_field u f)) searchFields.

(** Identity of the [Set<User>] of [performLocalSearch], taken as
    structural equality of the records. *)
Definition user_eqb (u v : User) : bool :=
  Z.eqb (user_id u) (user_id v) && String.eqb (user_name u) (user_name v) &&
  String.eqb (user_email u) (user_email v) &&
  String.eqb (company_name (user_company u)) (company_name (user_company v)).

Inductive SearchMode := Instant | Balanced | Conservative | Manual.

Definition mode_eqb (a b : SearchMode) : bool :=
  match a, b with
  | Instant, Instant | Balanced, Balanced
  | Conservative, Conservative | Manual, Manual => true
  | _, _ => false
  end.

(** The props of [AdvancedSearchComponent] the core reads. *)
Record Config := {
  debounceMs : Z;
  minQueryLength : Z;
  maxResults : Z;
  rateLimit : Z;
  rateLimitWindow : Z;
  cacheDuration : Z;
  maxCacheSize : Z;
  searchFields : list UserField
}.

Definition default_config : Config := {|
  debounceMs := 300; minQueryLength := 2; maxResults := 50; rateLimit := 60;
  rateLimitWindow := 60000; cacheDuration := 5 * 60 * 1000; maxCacheSize := 50;
  searchFields := [FName; FEmail] |}.

Inductive Source := SrcCache | SrcApi | SrcLocal | SrcRateLimited.

(** [SearchResult<User>]. *)
Record SearchResult := mkResult {
  sr_data : list User;
  sr_source : Source;
  sr_error : option string
}.

Record ApiResult := mkApiResult {
  isLoading : bool;
  error : option string;
  results : list User;
  isDropdownOpen : bool
}.

Record SearchStats := mkStats { apiCalls : nat; cacheHits : nat; localSearches : nat }.

(** A thrown JS value: its [name], its [message], and whether it is an
    [instanceof Error]. *)
Record JsError := { e_name : string; e_message : string; e_is_error : bool }.

(** How the [fetch] + [response.json()] of [performApiSearch] settles. *)
Inductive FetchOutcome :=
| Response (ok : bool) (status : string) (body : list User)
| NetworkError (e : JsError).

(** What [fetch] rejects with once its signal is aborted (a DOMException,
    [instanceof Error] in browsers); the message is the browser's. *)
Definition abort_error : JsError :=
  {| e_name := "AbortError"; e_message := "signal is aborted without reason";
     e_is_error := true |}.

(** How the promise returned by [performApiSearch] settles. *)
Inductive ApiOutcome := Resolved (d : list User) | Rejected (e : JsError).

(* ------------------------------------------------------------------ *)
(** ** Component state *)

(** The state of one [AdvancedSearchComponent]: the memoised cache and
    rate limiter, [recentSearchesRef] (LocalHistory), the React states
    [apiResult], [searchStats], [searchMode] and [query], the abort
    controllers ([abortControllerRef] and which of them were aborted), and
    the pending debounce timer. [searchMode] also stands for
    [currentStrategyRef], which mirrors it. *)
Record World := mkWorld {
  now : Z;
  cache : SearchCache.t User;
  limiter : RateLimiter.t;
  recent : JsMap.t (list User);
  apiResult : ApiResult;
  stats : SearchStats;
  searchMode : SearchMode;
  query : string;
  controller : option nat;
  aborted : list nat;
  nextCtrl : nat;
  debounced : option (string * SearchMode)
}.

Definition with_cache c w := mkWorld (now w) c (limiter w) (recent w) (apiResult w) (stats w) (searchMode w) (query w) (controller w) (aborted w) (nextCtrl w) (debounced w).
Definition with_limiter l w := mkWorld (now w) (cache w) l (recent w) (apiResult w) (stats w) (searchMode w) (query w) (controller w) (aborted w) (nextCtrl w) (debounced w).
Definition with_recent r w := mkWorld (now w) (cache w) (limiter w) r (apiResult w) (stats w) (searchMode w) (query w) (controller w) (aborted w) (nextCtrl w) (debounced w).
Definition setApiResult (f : ApiResult -> ApiResult) w := mkWorld (now w) (cache w) (limiter w) (recent w) (f (apiResult w)) (stats w) (searchMode w) (query w) (controller w) (aborted w) (nextCtrl w) (debounced w).
Definition setSearchStats (f : SearchStats -> SearchStats) w := mkWorld (now w) (cache w) (limiter w) (recent w) (apiResult w) (f (stats w)) (searchMode w) (query w) (controller w) (aborted w) (nextCtrl w) (debounced w).
Definition setSearchMode m w := mkWorld (now w) (cache w) (limiter w) (recent w) (apiResult w) (stats w) m (query w) (controller w) (aborted w) (nextCtrl w) (debounced w).
Definition setQuery q w := mkWorld (now w) (cache w) (limiter w) (recent w) (apiResult w) (stats w) (searchMode w) q (controller w) (aborted w) (nextCtrl w) (debounced w).
Definition with_controllers c ab n w := mkWorld (now w) (cache w) (limiter w) (recent w) (apiResult w) (stats w) (searchMode w) (query w) c ab n (debounced w).
Definition with_debounced d w := mkWorld (now w) (cache w) (limiter w) (recent w) (apiResult w) (stats w) (searchMode w) (query w) (controller w) (aborted w) (nextCtrl w) d.
Definition with_now t w := mkWorld t (cache w) (limiter w) (recent w) (apiResult w) (stats w) (searchMode w) (query w) (controller w) (aborted w) (nextCtrl w) (debounced w).

(** The [{ ...prev, field: v }] updates of [apiResult]. *)
Definition set_error e a := mkApiResult (isLoading a) e (results a) (isDropdownOpen a).
Definition set_results r a := mkApiResult (isLoading a) (error a) r (isDropdownOpen a).
Definition set_loading b a := mkApiResult b (error a) (results a) (isDropdownOpen a).
Definition set_dropdown b a := mkApiResult (isLoading a) (error a) (results a) b.

(* ------------------------------------------------------------------ *)
(** ** [performApiSearch] and [performLocalSearch] *)

Section Component.
Variable cfg : Config.

(** The filter and slice applied to the fetched users. *)
Definition api_filter (searchQuery : string) (d : list User) : list User :=
  slice0 (filter (user_matches (searchFields cfg) (toLowerCase searchQuery)) d)
         (maxResults cfg).

(** The synchronous part of [performApiSearch]: abort the previous
    controller and install a new one; returns the new controller. *)
Definition abort_current (w : World) : list nat :=
  match controller w with
  | Some c => c :: aborted w
  | None => aborted w
  end.

Definition performApiSearch_start (w : World) : nat * World :=
  (nextCtrl w, with_controllers (Some (nextCtrl w)) (abort_current w) (S (nextCtrl w)) w).

(** The rest of [performApiSearch], once the fetch has settled. *)
Definition performApiSearch_settle (searchQuery : string) (fo : FetchOutcome) : ApiOutcome :=
  match fo with
  | Response true _ body => Resolved (api_filter searchQuery body)
  | Response false status _ =>
      Rejected {| e_name := "Error"; e_message := "HTTP " ++ status; e_is_error := true |}
  | NetworkError e => Rejected e
  end.

Definition set_add (acc : list User) (u : User) : list User :=
  if existsb (user_eqb u) acc then acc else app acc [u].

Definition performLocalSearch (w : World) (searchQuery : string) : list User :=
  let lowerQuery := toLowerCase searchQuery in
  let resultsSet :=
    fold_left
      (fun acc (kv : string * list User) =>
         fold_left (fun acc u =>
                      if user_matches (searchFields cfg) lowerQuery u
                      then set_add acc u else acc) (snd kv) acc)
      (recent w) [] in
  slice0 resultsSet (maxResults cfg).

(* ------------------------------------------------------------------ *)
(** ** Strategies *)

(** A strategy's [execute] up to its first suspension: either it has its
    result, or it has called [apiSearch(q)] and waits; the continuation
    receives the settled promise and the state at that time. *)
Inductive Exec :=
| Done (r : SearchResult) (w : World)
| Await (q : string) (w : World) (k : ApiOutcome -> World -> SearchResult * World).

Definition exec_then (e : Exec) (f : SearchResult -> World -> SearchResult * World) : Exec :=
  match e with
  | Done r w => let (r', w') := f r w in Done r' w'
  | Await q w k => Await q w (fun o w0 => let (r, w1) := k o w0 in f r w1)
  end.

Definition cache_get (w : World) (q : string) : option (list User) * World :=
  let (g, c) := SearchCache.get (cacheDuration cfg) (now w) q (cache w) in
  (g, with_cache c w).

Definition cache_fuzzy (w : World) (q : string) : option (list User) :=
  SearchCache.fuzzyMatch (cacheDuration cfg) (now w) q (cache w).

Definition cache_set (w : World) (q : string) (d : list User) : World :=
  with_cache (SearchCache.set (maxCacheSize cfg) (now w) q d (cache w)) w.

Definition limiter_isLimited (w : World) : bool * World :=
  let (b, l) := RateLimiter.isLimited (rateLimit cfg) (rateLimitWindow cfg) (now w) (limiter w) in
  (b, with_limiter l w).

Definition limiter_record (w : World) : World :=
  with_limiter (RateLimiter.record (now w) (limiter w)) w.

Definition rate_limit_msg := "Rate limit exceeded. Please slow down.".

(** [tryApiSearch] (the same code in the Instant, Balanced and
    Conservative strategies). *)
Definition tryApiSearch (w : World) (query : string) : Exec :=
  let (lim, w1) := limiter_isLimited w in
  if lim then Done (mkResult [] SrcRateLimited (Some rate_limit_msg)) w1
  else Await query w1 (fun o w2 =>
    match o with
    | Resolved d =>
        let w3 := limiter_record w2 in
        (mkResult d SrcApi None, cache_set w3 query d)
    | Rejected e =>
        (mkResult [] SrcApi (Some (if e_is_error e then e_message e else "Search failed")), w2)
    end).

Definition instant_execute (w : World) (query : string) : Exec :=
  tryApiSearch w query.

(** JS truthiness of [result.error]. *)
Definition err_truthy (e : option string) : bool :=
  match e with Some s => str_truthy s | None => false end.

Definition balanced_degraded_msg := "Showing local results (API unavailable)".

Definition balanced_execute (w : World) (query : string) : Exec :=
  let (cached, w1) := cache_get w query in
  match cached with
  | Some d => Done (mkResult d SrcCache None) w1
  | None =>
      match cache_fuzzy w1 query with
      | Some d => Done (mkResult d SrcCache None) w1
      | None =>
          exec_then (tryApiSearch w1 query) (fun apiRes w2 =>
            if err_truthy (sr_error apiRes) && (List.length (sr_data apiRes) =? 0)%nat then
              let localData := performLocalSearch w2 query in
              if (0 <? List.length localData)%nat
              then (mkResult localData SrcLocal (Some balanced_degraded_msg), w2)
              else (apiRes, w2)
            else (apiRes, w2))
      end
  end.

Definition conservative_execute (w : World) (query : string) : Exec :=
  if js_length query <=? 3 then
    let localData := performLocalSearch w query in
    Done (mkResult localData SrcLocal
            (if (List.length localData =? 0)%nat
             then Some "Type more characters for API search" else None)) w
  else
    let (g, w1) := cache_get w query in
    let cached := match g with Some d => Some d | None => cache_fuzzy w1 query end in
    match cached with
    | Some d => Done (mkResult d SrcCache None) w1
    | None =>
        let (lim, w2) := limiter_isLimited w1 in
        if lim then
          Done (mkResult (performLocalSearch w2 query) SrcRateLimited
                  (Some "Rate limited. Showing local results.")) w2
        else tryApiSearch w2 query
    end.

Definition manual_execute (w : World) (query : string) : Exec :=
  let (cached, w1) := cache_get w query in
  match cached with
  | Some d => Done (mkResult d SrcCache None) w1
  | None =>
      let localData := performLocalSearch w1 query in
      Done (mkResult localData SrcLocal
              (if (List.length localData =? 0)%nat
               then Some "No local results. Press Enter for API search." else None)) w1
  end.

(** [strategies[currentMode].execute]. *)
Definition execute (m : SearchMode) : World -> string -> Exec :=
  match m with
  | Instant => instant_execute
  | Balanced => balanced_execute
  | Conservative => conservative_execute
  | Manual => manual_execute
  end.

(* ------------------------------------------------------------------ *)
(** ** The orchestrator: [performSearch] *)

Definition updateStats (source : Source) (prev : SearchStats) : SearchStats :=
  match source with
  | SrcApi => mkStats (S (apiCalls prev)) (cacheHits prev) (localSearches prev)
  | SrcCache => mkStats (apiCalls prev) (S (cacheHits prev)) (localSearches prev)
  | SrcLocal => mkStats (apiCalls prev) (cacheHits prev) (S (localSearches prev))
  | SrcRateLimited => prev
  end.

(** [result.error || null]. *)
Definition error_or_null (e : option string) : option string :=
  if err_truthy e then e else None.

(** The write of [recentSearchesRef] (LocalHistory), capped at 20. *)
Definition recent_write (q : string) (d : list User) (m : JsMap.t (list User)) : JsMap.t (list User) :=
  let m1 := JsMap.set q d m in
  if (20 <? JsMap.size m1)%nat then
    match JsMap.keys m1 with
    | firstKey :: _ => if str_truthy firstKey then JsMap.delete firstKey m1 else m1
    | [] => m1
    end
  else m1.

(** [performSearch] after [await strategy.execute(...)], with its
    [finally]. The [catch] is not reachable: no strategy throws. *)
Definition performSearch_finish (currentMode : SearchMode) (trimmedQuery : string)
    (result : SearchResult) (w : World) : World :=
  let w' :=
    if negb (mode_eqb (searchMode w) currentMode) then w
    else
      let w1 := setApiResult (fun a => set_results (sr_data result)
                                         (set_error (error_or_null (sr_error result)) a)) w in
      let w2 := setSearchStats (updateStats (sr_source result)) w1 in
      let w3 := if (0 <? List.length (sr_data result))%nat
                then with_recent (recent_write trimmedQuery (sr_data result) (recent w2)) w2
                else w2 in
      setApiResult (set_dropdown true) w3 in
  setApiResult (set_loading false) w'.

(** An outstanding remote call: the controller whose signal it carries and
    what its awaiting code does once it settles. *)
Record Pending := mkPending {
  p_ctrl : nat;
  p_resume : FetchOutcome -> World -> World
}.

Definition performSearch (w : World) (searchQuery : string) (currentMode : SearchMode)
    : World * option Pending :=
  let trimmedQuery := trim searchQuery in
  if negb (str_truthy trimmedQuery) || (js_length trimmedQuery <? minQueryLength cfg) then
    (setApiResult (fun a => set_results [] (set_error None a)) w, None)
  else
    let w1 := setApiResult (fun a => set_loading true (set_error None a)) w in
    match execute currentMode w1 trimmedQuery with
    | Done r w2 => (performSearch_finish currentMode trimmedQuery r w2, None)
    | Await q w2 k =>
        let (c, w3) := performApiSearch_start w2 in
        (w3, Some (mkPending c (fun fo w4 =>
                     let (r, w5) := k (performApiSearch_settle q fo) w4 in
                     performSearch_finish currentMode trimmedQuery r w5)))
    end.

(* ------------------------------------------------------------------ *)
(** ** Event handlers *)

Definition handleInputChange (w : World) (newQuery : string) : World * option Pending :=
  let w1 := setApiResult (set_error None) (setQuery newQuery w) in
  let trimmedQuery := trim newQuery in
  if negb (str_truthy trimmedQuery) then
    (setApiResult (fun a => set_dropdown false (set_results [] a)) w1, None)
  else if mode_eqb (searchMode w1) Manual then
    if js_length trimmedQuery >=? minQueryLength cfg
    then performSearch w1 trimmedQuery (searchMode w1)
    else (setApiResult (set_results []) w1, None)
  else
    (with_debounced (Some (newQuery, searchMode w1))
       (setApiResult (set_loading true) w1), None).

(** The trailing-edge timer of [useDebounce] firing. *)
Definition debounceFire (w : World) : World * option Pending :=
  match debounced w with
  | Some (q, m) => performSearch (with_debounced None w) q m
  | None => (w, None)
  end.

(** The [.then]/[.catch]/[.finally] of the manual submit in
    [handleKeyDown]. *)
Definition submit_resume (t : string) (fo : FetchOutcome) (w : World) : World :=
  let w' :=
    match performApiSearch_settle t fo with
    | Resolved d =>
        let w1 := cache_set (limiter_record w) t d in
        let w2 := setApiResult (fun a => set_dropdown true (set_error None (set_results d a))) w1 in
        setSearchStats (updateStats SrcApi) w2
    | Rejected e =>
        if negb (String.eqb (e_name e) "AbortError")
        then setApiResult (set_error (Some "Search failed. Please try again.")) w
        else w
    end in
  setApiResult (set_loading false) w'.

(** [handleKeyDown] on Enter. *)
Definition handleEnter (w : World) : World * option Pending :=
  let t := trim (query w) in
  if mode_eqb (searchMode w) Manual && (js_length t >=? minQueryLength cfg) then
    let w1 := setApiResult (set_loading false) w in
    let (c, w2) := performApiSearch_start w1 in
    (w2, Some (mkPending c (submit_resume t)))
  else
    match results (apiResult w) with
    | u :: _ => (setQuery (user_name u) w, None)
    | [] => (w, None)
    end.

Definition clearSearch (w : World) : World :=
  let w1 := setApiResult (fun a => mkApiResult false None [] false) (setQuery "" w) in
  with_controllers (controller w1) (abort_current w1) (nextCtrl w1) w1.

Definition handleStrategyChange (w : World) (mode : SearchMode) : World :=
  let w1 := with_controllers (controller w) (abort_current w) (nextCtrl w) w in
  setApiResult (set_loading false) (setSearchMode mode w1).

(** A remote call settling: once its controller is aborted, [fetch]
    rejects with an [AbortError]. *)
Definition settle (w : World) (p : Pending) (fo : FetchOutcome) : World :=
  let fo' := if existsb (Nat.eqb (p_ctrl p)) (aborted w) then NetworkError abort_error else fo in
  p_resume p fo' w.

End Component.

(* ------------------------------------------------------------------ *)
(** ** The event loop *)

Inductive Event :=
| InputChange (s : string)
| DebounceFire
| KeyEnter
| Settle (i : nat) (fo : FetchOutcome)
| Tick (dt : Z)
| SelectMode (m : SearchMode)
| ClearSearch.

(** The component with its outstanding remote calls, oldest first. *)
Definition Sys := (World * list Pending)%type.

Definition push (pend : list Pending) (o : option Pending) : list Pending :=
  match o with Some p => app pend [p] | None => pend end.

Fixpoint remove_nth {A} (i : nat) (l : list A) : list A :=
  match i, l with
  | _, [] => []
  | O, _ :: l' => l'
  | S i', x :: l' => x :: remove_nth i' l'
  end.

Definition step (cfg : Config) (s : Sys) (ev : Event) : Sys :=
  let (w, pend) := s in
  match ev with
  | InputChange q => let (w', o) := handleInputChange cfg w q in (w', push pend o)
  | DebounceFire => let (w', o) := debounceFire cfg w in (w', push pend o)
  | KeyEnter => let (w', o) := handleEnter cfg w in (w', push pend o)
  | Settle i fo =>
      match nth_error pend i with
      | Some p => (settle w p fo, remove_nth i pend)
      | None => s
      end
  | Tick dt => (with_now (now w + dt) w, pend)
  | SelectMode m => (handleStrategyChange w m, pend)
  | ClearSearch => (clearSearch w, pend)
  end.

Definition run (cfg : Config) (s : Sys) (evs : list Event) : Sys :=
  fold_left (step cfg) evs s.

Definition init_world (m : SearchMode) : World :=
  mkWorld 0 [] [] [] (mkApiResult false None [] false) (mkStats 0 0 0)
          m "" None [] 0 None.

(** Whether the fetch of [performApiSearch] ends in a rejection (a
    transport failure, an abort, or a non-ok HTTP status). *)
Definition fetch_fails (fo : FetchOutcome) : bool :=
  match fo with
  | Response true _ _ => false
  | _ => true
  end.

(** Two states that agree on everything the UI shows and on the mode:
    the strategies only ever change the cache and the rate limiter. *)
Definition ui_same (w w' : World) : Prop :=
  apiResult w' = apiResult w /\ stats w' = stats w /\ recent w' = recent w /\
  searchMode w' = searchMode w.

(** One search's effect on [searchStats]: nothing, or one counter up by
    one. *)
Definition stats_step (s s' : SearchStats) : Prop :=
  s' = s \/ s' = updateStats SrcApi s \/ s' = updateStats SrcCache s \/
  s' = updateStats SrcLocal s.

(* ------------------------------------------------------------------ *)
(** ** [FilterPanel] and [Table] *)

(** [appliedFilters : Filters], as the own entries of the object in
    insertion order ([Object.entries]); the values are the strings the
    panel writes. *)
Definition Filters := JsMap.t string.

(** A row of [Table]: [Item] maps a key to any JS value. *)
Definition Item := JsMap.t JsValue.

(** [item[key] === value] for a string [value]: a missing key is
    [undefined], and only a string equal to [value] is [===] to it. *)
Definition item_has (item : Item) (key value : string) : bool :=
  match JsMap.get key item with
  | Some (JsStr s) => String.eqb s value
  | _ => false
  end.

(** The [every] callback of [Table]'s filter: [if (!value) return true;
    return item[key] === value;]. *)
Definition row_passes (appliedFilters : Filters) (item : Item) : bool :=
  forallb (fun kv : string * string =>
             if negb (str_truthy (snd kv)) then true else item_has item (fst kv) (snd kv))
          appliedFilters.

(** [filteredData] of [Table]. *)
Definition filteredData (appliedFilters : Filters) (data : list Item) : list Item :=
  filter (row_passes appliedFilters) data.

(** [handleDelete(key)] of [FilterPanel]: [{ ...appliedFilters }] and
    [delete updated[key]]. *)
Definition handleDelete (key : string) (appliedFilters : Filters) : Filters :=
  JsMap.delete key appliedFilters.

(** The category [select]'s [onChange]: [{ ...localFilters, category: v }]. *)
Definition selectCategory (v : string) (localFilters : Filters) : Filters :=
  JsMap.set "category" v localFilters.

(* ------------------------------------------------------------------ *)
(** ** Sample inputs *)

Definition john : User :=
  {| user_id := 1; user_name := "John"; user_email := "john@example.com";
     user_company := {| company_name := "Acme" |} |}.

Definition ok_response (body : list User) : FetchOutcome := Response true "200" body.

(** The default props except [minQueryLength = 0] and [maxCacheSize = 1]. *)
Definition tiny_cache_config : Config := {|
  debounceMs := 300; minQueryLength := 0; maxResults := 50; rateLimit := 60;
  rateLimitWindow := 60000; cacheDuration := 5 * 60 * 1000; maxCacheSize := 1;
  searchFields := [FName; FEmail] |}.

(** The default props except [rateLimit = 1]. *)
Definition one_call_config : Config := {|
  debounceMs := 300; minQueryLength := 2; maxResults := 50; rateLimit := 1;
  rateLimitWindow := 60000; cacheDuration := 5 * 60 * 1000; maxCacheSize := 50;
  searchFields := [FName; FEmail] |}.

(** Conservative mode at t = 0 with one call recorded at t = 0 (so the
    budget of [one_call_config] is used up) and ["jo"] in LocalHistory. *)
Definition limited_world : World :=
  mkWorld 0 [] [0] [("jo", [john])] (mkApiResult false None [] false)
          (mkStats 0 0 0) Conservative "" None [] 0 None.

Definition abcd_cache : SearchCache.t User :=
  [("abcd", {| SearchCache.data := [john]; SearchCache.timestamp := 0 |})].

(** Conservative mode with ["abcd"] cached and ["jo"] in LocalHistory. *)
Definition cached_world : World :=
  mkWorld 0 abcd_cache [] [("jo", [john])] (mkApiResult false None [] false)
          (mkStats 0 0 0) Conservative "" None [] 0 None.

(** [limited_world] in Balanced mode. *)
Definition limited_balanced_world : World := setSearchMode Balanced limited_world.

(* ================================================================== *)
(** * Properties *)

(** ** Rate limiter *)

Module RateLimiterFacts.
Import RateLimiter.

Lemma splice1_middle (a b : list Z) (x : Z) :
  splice1 (List.length a) (app a (x :: b)) = app a b.
Proof. induction a as [|y a IH]; simpl; [reflexivity | now rewrite IH]. Qed.

Lemma nth_middle_Z (a b : list Z) (x : Z) :
  nth (List.length a) (app a (x :: b)) 0 = x.
Proof. induction a as [|y a IH]; simpl; auto. Qed.

(** The backward splicing loop keeps exactly the timestamps after the
    cutoff, in order. *)
Lemma cleanup_loop_app (cutoff : Z) (a b : list Z) :
  cleanup_loop cutoff (List.length a) (app a b) =
  app (filter (fun t => cutoff <? t) a) b.
Proof.
  revert b. induction a as [|x a IH] using rev_ind; intros b; [reflexivity|].
  rewrite length_app, Nat.add_1_r. simpl cleanup_loop.
  rewrite <- app_assoc. change (app [x] b) with (x :: b).
  rewrite nth_middle_Z, filter_app. simpl filter.
  destruct (x <=? cutoff) eqn:Hx.
  - rewrite splice1_middle, IH.
    replace (cutoff <? x) with false by (symmetry; apply Z.ltb_ge; lia).
    rewrite app_nil_r. reflexivity.
  - rewrite (IH (x :: b)).
    replace (cutoff <? x) with true by (symmetry; apply Z.ltb_lt; lia).
    rewrite <- app_assoc. reflexivity.
Qed.

Lemma cleanup_filter (windowMs now : Z) (reqs : t) :
  cleanup windowMs now reqs = filter (fun t => now - windowMs <? t) reqs.
Proof.
  unfold cleanup. rewrite <- (app_nil_r reqs) at 2.
  rewrite cleanup_loop_app, app_nil_r. reflexivity.
Qed.

(** An earlier purge is invisible to a later one. *)
Lemma cleanup_cleanup (windowMs now now' : Z) (reqs : t) :
  now <= now' ->
  cleanup windowMs now' (cleanup windowMs now reqs) = cleanup windowMs now' reqs.
Proof.
  intros Hle. rewrite !cleanup_filter.
  induction reqs as [|x reqs IH]; simpl; [reflexivity|].
  destruct (now - windowMs <? x) eqn:H1; simpl;
    destruct (now' - windowMs <? x) eqn:H2; rewrite ?IH; auto.
  apply Z.ltb_lt in H2. apply Z.ltb_ge in H1. lia.
Qed.

End RateLimiterFacts.

(** ** Result cache *)

Module CacheFacts.

(** Keys of a JS [Map] are pairwise distinct. *)
Fixpoint uniq (ks : list string) : bool :=
  match ks with
  | [] => true
  | k :: ks' => negb (existsb (String.eqb k) ks') && uniq ks'
  end.

Lemma delete_absent {V} (q : string) (c : JsMap.t V) :
  existsb (String.eqb q) (JsMap.keys c) = false -> JsMap.delete q c = c.
Proof.
  induction c as [|[k v] c IH]; simpl; intros H; [reflexivity|].
  apply orb_false_iff in H as [H1 H2].
  rewrite String.eqb_sym, H1. simpl. now rewrite IH.
Qed.

Lemma get_delete {V} (q : string) (c : JsMap.t V) :
  JsMap.get q (JsMap.delete q c) = None.
Proof.
  induction c as [|[k v] c IH]; simpl; [reflexivity|].
  destruct (String.eqb k q) eqn:E; simpl; [exact IH|].
  now rewrite E.
Qed.

Lemma delete_present_length {V} (q : string) (c : JsMap.t V) (e : V) :
  uniq (JsMap.keys c) = true -> JsMap.get q c = Some e ->
  List.length (JsMap.delete q c) = (List.length c - 1)%nat.
Proof.
  induction c as [|[k v] c IH]; simpl; intros Hu Hg; [discriminate|].
  apply andb_true_iff in Hu as [Hn Hu].
  destruct (String.eqb k q) eqn:E; simpl.
  - apply String.eqb_eq in E. subst k.
    apply negb_true_iff in Hn. rewrite (delete_absent q c Hn). lia.
  - rewrite (IH Hu Hg). destruct c; simpl in *; [discriminate|lia].
Qed.

End CacheFacts.

(** ** C7 *)

(** Claim C7: with limit 3 and a 1000 ms window, three [record()] calls at
    t = 0 make [isLimited()] true at t = 500 and then false at t = 1500;
    and in general [isLimited()] first purges the timestamps at or before
    [now - windowMs] and then answers whether the retained count reaches
    the limit. *)
Theorem rate_limiter_sliding_window :
  let reqs := RateLimiter.record 0 (RateLimiter.record 0 (RateLimiter.record 0 [])) in
  fst (RateLimiter.isLimited 3 1000 500 reqs) = true /\
  fst (RateLimiter.isLimited 3 1000 1500 (snd (RateLimiter.isLimited 3 1000 500 reqs))) = false /\
  fst (RateLimiter.isLimited 3 1000 1500 reqs) = false /\
  (forall limit windowMs now reqs,
     RateLimiter.isLimited limit windowMs now reqs =
     let r := filter (fun t => now - windowMs <? t) reqs in
     (Z.of_nat (List.length r) >=? limit, r)).
Proof.
  split; [reflexivity|]. split; [reflexivity|]. split; [reflexivity|].
  intros limit windowMs now0 reqs0. unfold RateLimiter.isLimited.
  now rewrite RateLimiterFacts.cleanup_filter.
Qed.

(** ** C5 *)

(** Claim C5 fails at the boundary: an entry read exactly at
    [timestamp + cacheDuration] is still returned. *)
Lemma cache_ttl_boundary_counterexample :
  let c : SearchCache.t nat := [("ab", {| SearchCache.data := [1%nat]; SearchCache.timestamp := 0 |})] in
  100 >= 0 + 100 /\
  fst (SearchCache.get 100 100 "ab" c) = Some [1%nat] /\
  SearchCache.size (snd (SearchCache.get 100 100 "ab" c)) = 1%nat.
Proof. split; [lia|]. split; reflexivity. Qed.

(** Claim C5 (amended): [get(q)] returns absent, and deletes the entry
    (the size drops by one), once [now > timestamp + cacheDuration]; up to
    and including [now = timestamp + cacheDuration] it returns the data
    and leaves the cache as it is. *)
Theorem cache_get_ttl {A : Type} (duration now : Z) (q : string)
    (c : SearchCache.t A) (e : SearchCache.CacheEntry A) :
  CacheFacts.uniq (JsMap.keys c) = true ->
  JsMap.get q c = Some e ->
  (SearchCache.timestamp e + duration < now ->
     fst (SearchCache.get duration now q c) = None /\
     JsMap.get q (snd (SearchCache.get duration now q c)) = None /\
     SearchCache.size (snd (SearchCache.get duration now q c)) = (SearchCache.size c - 1)%nat) /\
  (now <= SearchCache.timestamp e + duration ->
     SearchCache.get duration now q c = (Some (SearchCache.data e), c)).
Proof.
  intros Hu Hg. unfold SearchCache.get. rewrite Hg. split; intros Ht.
  - replace (now - SearchCache.timestamp e >? duration) with true
      by (symmetry; apply Z.gtb_lt; lia).
    simpl. split; [reflexivity|]. split; [apply CacheFacts.get_delete|].
    unfold SearchCache.size, JsMap.size.
    exact (CacheFacts.delete_present_length q c e Hu Hg).
  - replace (now - SearchCache.timestamp e >? duration) with false
      by (symmetry; rewrite Z.gtb_ltb; apply Z.ltb_ge; lia).
    reflexivity.
Qed.

Lemma cache_get_ttl_witness :
  let c : SearchCache.t nat := [("ab", {| SearchCache.data := [1%nat]; SearchCache.timestamp := 0 |});
                                ("cd", {| SearchCache.data := []; SearchCache.timestamp := 50 |})] in
  fst (SearchCache.get 100 101 "ab" c) = None /\
  SearchCache.size (snd (SearchCache.get 100 101 "ab" c)) = 1%nat /\
  SearchCache.get 100 100 "ab" c = (Some [1%nat], c).
Proof.
  intros c.
  assert (Hu : CacheFacts.uniq (JsMap.keys c) = true) by reflexivity.
  assert (Hg : JsMap.get "ab" c = Some {| SearchCache.data := [1%nat]; SearchCache.timestamp := 0 |})
    by reflexivity.
  destruct (cache_get_ttl 100 101 "ab" c _ Hu Hg) as [H1 _].
  destruct (cache_get_ttl 100 100 "ab" c _ Hu Hg) as [_ H2].
  destruct (H1 ltac:(simpl; lia)) as [Ha [_ Hb]].
  split; [exact Ha|]. split; [rewrite Hb; reflexivity|]. apply H2. simpl. lia.
Defined.

(** ** C6 *)

(** Claim C6 (code_bug): a [set] at capacity whose first key is the empty
    string evicts nothing ([if (firstKey)] treats [""] as absent), so the
    size exceeds [maxCacheSize]. *)
Theorem cache_bound_broken_by_empty_key :
  let c1 := SearchCache.set 1 0 "" [john] [] in
  let c2 := SearchCache.set 1 0 "ab" [john] c1 in
  SearchCache.size c1 = 1%nat /\ SearchCache.size c2 = 2%nat /\
  (Z.of_nat (SearchCache.size c2) > 1)%Z.
Proof. split; [reflexivity|]. split; [reflexivity|]. simpl. lia. Qed.

(** The same overflow reached through the component: manual mode,
    [minQueryLength = 0], [maxCacheSize = 1]; Enter on a blank query caches
    the key [""], a later submit of ["ab"] then adds a second entry. *)
Lemma cache_bound_broken_in_component :
  let s := run tiny_cache_config (init_world Manual, [])
             [InputChange " "; KeyEnter; Settle 0 (ok_response [john]);
              InputChange "ab"; KeyEnter; Settle 0 (ok_response [john])] in
  JsMap.keys (cache (fst s)) = [""; "ab"] /\
  (Z.of_nat (SearchCache.size (cache (fst s))) > maxCacheSize tiny_cache_config)%Z.
Proof. split; [reflexivity|]. vm_compute. reflexivity. Qed.

(** ** C1 and C2: aborted requests *)

(** The manual submit path of [handleKeyDown] does swallow an aborted
    request: nothing but [isLoading] is touched. *)
Lemma submit_abort_is_silent (cfg : Config) (t : string) (w : World) :
  submit_resume cfg t (NetworkError abort_error) w = setApiResult (set_loading false) w.
Proof. reflexivity. Qed.

(** Claim C1 (code_bug): search A ("jo") is superseded by search B ("joh")
    in Balanced mode; B's dispatch aborts A's controller, yet A's settling
    writes the abort message into the visible error, opens the dropdown
    and counts an API call: the strategy's [catch] turns the [AbortError]
    into an ordinary error result before [performSearch] can drop it. *)
Theorem superseded_search_result_still_applied :
  let s := run default_config (init_world Balanced, [])
             [InputChange "jo"; DebounceFire; InputChange "joh"; DebounceFire] in
  let s' := step default_config s (Settle 0 (ok_response [john])) in
  List.length (snd s) = 2%nat /\ aborted (fst s) = [0%nat] /\
  error (apiResult (fst s)) = None /\
  searchMode (fst s') = Balanced /\
  error (apiResult (fst s')) = Some (e_message abort_error) /\
  isDropdownOpen (apiResult (fst s')) = true /\
  apiCalls (stats (fst s')) = 1%nat.
Proof. vm_compute. repeat (split; [reflexivity|]). reflexivity. Qed.

(** Claim C2 (code_bug): a search aborted by [clearSearch] still delivers
    an error message and an opened dropdown after the user cleared the
    input, and counts an API call. *)
Theorem aborted_search_not_swallowed :
  let s := run default_config (init_world Balanced, [])
             [InputChange "jo"; DebounceFire; ClearSearch] in
  let s' := step default_config s (Settle 0 (ok_response [john])) in
  aborted (fst s) = [0%nat] /\
  apiResult (fst s) = mkApiResult false None [] false /\
  apiResult (fst s') = mkApiResult false (Some (e_message abort_error)) [] true /\
  apiCalls (stats (fst s')) = 1%nat.
Proof. vm_compute. repeat (split; [reflexivity|]). reflexivity. Qed.

(** ** C3 *)

(** Claim C3 fails: a Conservative search that is rate limited answers
    from LocalHistory with source [rate_limited] and non-empty data, and
    that result is written into LocalHistory under the new query (while
    no statistics counter moves). *)
Lemma rate_limited_result_written_counterexample :
  conservative_execute one_call_config limited_world "john" =
    Done (mkResult [john] SrcRateLimited (Some "Rate limited. Showing local results."))
         limited_world /\
  JsMap.get "john" (recent limited_world) = None /\
  JsMap.get "john" (recent (fst (performSearch one_call_config limited_world "john" Conservative)))
    = Some [john] /\
  stats (fst (performSearch one_call_config limited_world "john" Conservative)) = mkStats 0 0 0.
Proof. vm_compute. repeat (split; [reflexivity|]). reflexivity. Qed.

(** Claim C3 (amended): when a search's result is applied (the active
    mode is still the one it was dispatched in), LocalHistory is written
    with the result set exactly when the data is non-empty, whatever the
    source tag, [rate_limited] included; a result for a superseded mode is
    never written. *)
Theorem history_written_iff_applied_nonempty (m : SearchMode) (t : string)
    (r : SearchResult) (w : World) :
  recent (performSearch_finish m t r w) =
    if mode_eqb (searchMode w) m && (0 <? List.length (sr_data r))%nat
    then recent_write t (sr_data r) (recent w)
    else recent w.
Proof.
  unfold performSearch_finish.
  destruct (mode_eqb (searchMode w) m); simpl; [|reflexivity].
  destruct (0 <? List.length (sr_data r))%nat; reflexivity.
Qed.

(** ** C4 *)

(** Claim C4: in Conservative mode a query of length at most 3 is
    answered from LocalHistory with source [local], and a longer query
    with an exact cache hit is answered with the cached data and source
    [cache]; in both cases [execute] finishes without calling the remote
    search. *)
Theorem conservative_short_or_cached_no_remote (cfg : Config) (w : World) (q : string) :
  (js_length q <= 3 ->
     conservative_execute cfg w q =
       Done (mkResult (performLocalSearch cfg w q) SrcLocal
               (if (List.length (performLocalSearch cfg w q) =? 0)%nat
                then Some "Type more characters for API search" else None)) w) /\
  (forall d c1,
     3 < js_length q ->
     SearchCache.get (cacheDuration cfg) (now w) q (cache w) = (Some d, c1) ->
     conservative_execute cfg w q = Done (mkResult d SrcCache None) (with_cache c1 w)).
Proof.
  split.
  - intros Hle. unfold conservative_execute.
    replace (js_length q <=? 3) with true by (symmetry; apply Z.leb_le; exact Hle).
    reflexivity.
  - intros d c1 Hlt Hg. unfold conservative_execute.
    replace (js_length q <=? 3) with false by (symmetry; apply Z.leb_gt; exact Hlt).
    unfold cache_get. rewrite Hg. reflexivity.
Qed.

Lemma conservative_short_or_cached_no_remote_witness :
  (js_length "ab" <= 3 /\
   conservative_execute default_config cached_world "ab" =
     Done (mkResult (performLocalSearch default_config cached_world "ab") SrcLocal
             (if (List.length (performLocalSearch default_config cached_world "ab") =? 0)%nat
              then Some "Type more characters for API search" else None)) cached_world) /\
  (3 < js_length "abcd" /\
   conservative_execute default_config cached_world "abcd" =
     Done (mkResult [john] SrcCache None) (with_cache abcd_cache cached_world)).
Proof.
  assert (H1 : js_length "ab" <= 3) by (vm_compute; discriminate).
  assert (H2 : 3 < js_length "abcd") by reflexivity.
  split; split; try assumption.
  - exact (proj1 (conservative_short_or_cached_no_remote default_config cached_world "ab") H1).
  - apply (proj2 (conservative_short_or_cached_no_remote default_config cached_world "abcd")
             [john] abcd_cache H2).
    reflexivity.
Defined.

(** ** C8 *)

(** Claim C8 fails: for the non-empty but too short query ["a"] no
    message reaches the caller, neither from [performSearch] nor through
    the keystroke handler (debounced or manual). *)
Lemma short_query_message_counterexample :
  js_length (trim "a") = 1 /\ 1 < minQueryLength default_config /\
  error (apiResult (fst (performSearch default_config (init_world Balanced) "a" Balanced))) = None /\
  error (apiResult (fst (run default_config (init_world Balanced, []) [InputChange "a"; DebounceFire]))) = None /\
  error (apiResult (fst (run default_config (init_world Manual, []) [InputChange "a"]))) = None.
Proof. vm_compute. repeat (split; [reflexivity|]). reflexivity. Qed.

(** Claim C8 (amended): [performSearch] never runs a strategy for a query
    whose trimmed form is empty or shorter than [minQueryLength]: it only
    clears the results and sets the error to null. On a keystroke, an
    empty trimmed query clears the results at once (error null, dropdown
    closed), and in manual mode a too short query clears them at once
    (error null); in the other modes the keystroke only schedules the
    debounced [performSearch], which clears them when it fires. No message
    is surfaced in any of these cases. *)
Theorem short_query_never_dispatched (cfg : Config) :
  (forall w q m,
     str_truthy (trim q) = false \/ js_length (trim q) < minQueryLength cfg ->
     performSearch cfg w q m = (setApiResult (fun a => set_results [] (set_error None a)) w, None)) /\
  (forall w q,
     str_truthy (trim q) = false ->
     handleInputChange cfg w q =
       (setApiResult (fun a => set_dropdown false (set_results [] a))
          (setApiResult (set_error None) (setQuery q w)), None)) /\
  (forall w q,
     searchMode w = Manual -> str_truthy (trim q) = true ->
     js_length (trim q) < minQueryLength cfg ->
     handleInputChange cfg w q =
       (setApiResult (set_results []) (setApiResult (set_error None) (setQuery q w)), None)) /\
  (forall w q,
     searchMode w <> Manual -> str_truthy (trim q) = true ->
     handleInputChange cfg w q =
       (with_debounced (Some (q, searchMode w))
          (setApiResult (set_loading true) (setApiResult (set_error None) (setQuery q w))), None)).
Proof.
  split; [|split; [|split]].
  - intros w q m H. unfold performSearch.
    replace (negb (str_truthy (trim q)) || (js_length (trim q) <? minQueryLength cfg))
      with true; [reflexivity|].
    destruct H as [H|H]; [now rewrite H|].
    symmetry. apply orb_true_iff. right. now apply Z.ltb_lt.
  - intros w q H. unfold handleInputChange. now rewrite H.
  - intros w q Hm Ht Hl. unfold handleInputChange. rewrite Ht. simpl.
    rewrite Hm. simpl.
    replace (js_length (trim q) >=? minQueryLength cfg) with false; [reflexivity|].
    symmetry. rewrite Z.geb_leb. apply Z.leb_gt. exact Hl.
  - intros w q Hm Ht. unfold handleInputChange. rewrite Ht. simpl.
    destruct (searchMode w); try reflexivity. contradiction.
Qed.

Lemma short_query_never_dispatched_witness :
  performSearch default_config (init_world Balanced) "a" Balanced =
    (setApiResult (fun a => set_results [] (set_error None a)) (init_world Balanced), None) /\
  handleInputChange default_config (init_world Balanced) "  " =
    (setApiResult (fun a => set_dropdown false (set_results [] a))
       (setApiResult (set_error None) (setQuery "  " (init_world Balanced))), None) /\
  handleInputChange default_config (init_world Manual) "a" =
    (setApiResult (set_results []) (setApiResult (set_error None) (setQuery "a" (init_world Manual))), None) /\
  handleInputChange default_config (init_world Balanced) "a" =
    (with_debounced (Some ("a", Balanced))
       (setApiResult (set_loading true) (setApiResult (set_error None) (setQuery "a" (init_world Balanced)))), None).
Proof.
  destruct (short_query_never_dispatched default_config) as [P1 [P2 [P3 P4]]].
  split; [|split; [|split]].
  - apply P1. right. reflexivity.
  - apply P2. reflexivity.
  - apply P3; reflexivity.
  - apply (P4 (init_world Balanced) "a"); [discriminate | reflexivity].
Defined.

(** ** C9 *)

Lemma performLocalSearch_recent (cfg : Config) (w w' : World) (q : string) :
  recent w' = recent w -> performLocalSearch cfg w' q = performLocalSearch cfg w q.
Proof. intros H. unfold performLocalSearch. now rewrite H. Qed.

(** Claim C9: in Balanced mode, when the exact and the fuzzy cache lookups
    miss, the rate limiter reports limited and LocalHistory has matches,
    [execute] answers with the local data, source [local] and the
    degraded-mode message; [performSearch] then shows that data and
    message and increments [localSearches] only, so the [rate_limited]
    provenance never reaches the orchestrator. *)
Theorem balanced_masks_rate_limit (cfg : Config) (w : World) (q : string)
    (c1 : SearchCache.t User) (l1 : RateLimiter.t) :
  str_truthy (trim q) = true ->
  minQueryLength cfg <= js_length (trim q) ->
  searchMode w = Balanced ->
  SearchCache.get (cacheDuration cfg) (now w) (trim q) (cache w) = (None, c1) ->
  SearchCache.fuzzyMatch (cacheDuration cfg) (now w) (trim q) c1 = None ->
  RateLimiter.isLimited (rateLimit cfg) (rateLimitWindow cfg) (now w) (limiter w) = (true, l1) ->
  performLocalSearch cfg w (trim q) <> [] ->
  balanced_execute cfg w (trim q) =
    Done (mkResult (performLocalSearch cfg w (trim q)) SrcLocal (Some balanced_degraded_msg))
         (with_limiter l1 (with_cache c1 w)) /\
  exists w',
    performSearch cfg w q Balanced = (w', None) /\
    results (apiResult w') = performLocalSearch cfg w (trim q) /\
    error (apiResult w') = Some balanced_degraded_msg /\
    stats w' = mkStats (apiCalls (stats w)) (cacheHits (stats w)) (S (localSearches (stats w))).
Proof.
  intros Ht Hl Hm Hg Hf Hr Hloc.
  assert (Hexec : forall w0, cache w0 = cache w -> now w0 = now w -> limiter w0 = limiter w ->
            recent w0 = recent w ->
            balanced_execute cfg w0 (trim q) =
              Done (mkResult (performLocalSearch cfg w (trim q)) SrcLocal (Some balanced_degraded_msg))
                   (with_limiter l1 (with_cache c1 w0))).
  { intros w0 Hc Hn Hli Hre.
    unfold balanced_execute, cache_get, cache_fuzzy.
    rewrite Hc, Hn, Hg. simpl. rewrite Hn, Hf.
    unfold tryApiSearch, limiter_isLimited. simpl. rewrite Hn, Hli.
    unfold RateLimiter.isLimited in Hr. injection Hr as Hb Hl1. rewrite Hl1 in Hb.
    rewrite Hl1, Hb. simpl.
    rewrite (performLocalSearch_recent cfg w _ (trim q)) by (simpl; exact Hre).
    destruct (performLocalSearch cfg w (trim q)) eqn:E; [contradiction|].
    reflexivity. }
  split; [now apply Hexec|].
  unfold performSearch.
  replace (negb (str_truthy (trim q)) || (js_length (trim q) <? minQueryLength cfg)) with false
    by (rewrite Ht; symmetry; apply Z.ltb_ge; exact Hl).
  simpl execute. rewrite Hexec by reflexivity.
  eexists. split; [reflexivity|].
  unfold performSearch_finish. simpl. rewrite Hm. simpl.
  destruct (performLocalSearch cfg w (trim q)) eqn:E; [contradiction|].
  simpl. split; [reflexivity|]. split; [reflexivity|].
  destruct (0 <? List.length (u :: l))%nat; reflexivity.
Qed.

Lemma balanced_masks_rate_limit_witness :
  exists w',
    performSearch one_call_config limited_balanced_world "john" Balanced = (w', None) /\
    results (apiResult w') = [john] /\
    error (apiResult w') = Some balanced_degraded_msg /\
    stats w' = mkStats 0 0 1.
Proof.
  destruct (balanced_masks_rate_limit one_call_config limited_balanced_world "john" [] [0])
    as [_ [w' [H1 [H2 [H3 H4]]]]].
  - reflexivity.
  - vm_compute. discriminate.
  - reflexivity.
  - reflexivity.
  - reflexivity.
  - reflexivity.
  - vm_compute. discriminate.
  - exists w'. split; [exact H1|]. split; [rewrite H2; reflexivity|].
    split; [exact H3|]. rewrite H4. reflexivity.
Defined.

(** ** C10 *)

Module BudgetFacts.

Lemma settle_rejects (cfg : Config) (q : string) (fo : FetchOutcome) :
  fetch_fails fo = true -> exists e, performApiSearch_settle cfg q fo = Rejected e.
Proof.
  destruct fo as [[|] st body | e]; simpl; intros H; try discriminate; eauto.
Qed.

Lemma cache_get_shape (cfg : Config) (w w1 : World) (q : string) g :
  cache_get cfg w q = (g, w1) -> now w1 = now w /\ limiter w1 = limiter w.
Proof.
  unfold cache_get. destruct (SearchCache.get _ _ _ _). intros H.
  injection H as _ <-. split; reflexivity.
Qed.

Lemma isLimited_shape (cfg : Config) (w w1 : World) b :
  limiter_isLimited cfg w = (b, w1) ->
  now w1 = now w /\
  limiter w1 = RateLimiter.cleanup (rateLimitWindow cfg) (now w) (limiter w).
Proof.
  unfold limiter_isLimited, RateLimiter.isLimited. intros H.
  injection H as _ <-. split; reflexivity.
Qed.

(** A suspended [tryApiSearch] has purged the limiter but not recorded, and
    its rejection branch leaves the limiter alone. *)
Lemma tryApiSearch_await (cfg : Config) (w w1 : World) (q q' : string) k :
  tryApiSearch cfg w q = Await q' w1 k ->
  now w1 = now w /\
  limiter w1 = RateLimiter.cleanup (rateLimitWindow cfg) (now w) (limiter w) /\
  forall e w2, limiter (snd (k (Rejected e) w2)) = limiter w2.
Proof.
  unfold tryApiSearch. destruct (limiter_isLimited cfg w) as [[|] w0] eqn:E;
    intros H; [discriminate|].
  apply isLimited_shape in E as [En El].
  injection H as _ <- <-. split; [exact En|]. split; [exact El|].
  intros e w2. reflexivity.
Qed.

Lemma exec_then_await (e : Exec) f q w1 k :
  exec_then e f = Await q w1 k ->
  exists k0, e = Await q w1 k0 /\
    forall o w2, k o w2 = let (r, w3) := k0 o w2 in f r w3.
Proof.
  destruct e as [r w | q0 w0 k0]; simpl.
  - destruct (f r w). discriminate.
  - intros H. injection H as <- <- <-. exists k0. split; reflexivity.
Qed.

(** Every strategy that suspends on the remote call has only purged the
    limiter, and resumes on a rejection without recording. *)
Lemma execute_await (cfg : Config) (m : SearchMode) (w w1 : World) (q q' : string) k :
  execute cfg m w q = Await q' w1 k ->
  limiter w1 = RateLimiter.cleanup (rateLimitWindow cfg) (now w) (limiter w) /\
  forall e w2, limiter (snd (k (Rejected e) w2)) = limiter w2.
Proof.
  destruct m; simpl.
  - intros H. apply tryApiSearch_await in H as [_ [H1 H2]]. split; assumption.
  - unfold balanced_execute.
    destruct (cache_get cfg w q) as [[d|] w0] eqn:Eg; [discriminate|].
    destruct (cache_fuzzy cfg w0 q); [discriminate|].
    intros H. apply exec_then_await in H as [k0 [Hk0 Hk]].
    apply tryApiSearch_await in Hk0 as [_ [H1 H2]].
    apply cache_get_shape in Eg as [En El].
    split; [rewrite H1, En, El; reflexivity|].
    intros e w2. rewrite Hk. specialize (H2 e w2).
    destruct (k0 (Rejected e) w2) as [r w3]. simpl in H2 |- *.
    destruct (err_truthy (sr_error r) && (List.length (sr_data r) =? 0)%nat);
      [destruct (0 <? List.length (performLocalSearch cfg w3 q))%nat|]; exact H2.
  - unfold conservative_execute.
    destruct (js_length q <=? 3); [discriminate|].
    destruct (cache_get cfg w q) as [g w0] eqn:Eg.
    destruct (match g with Some d => Some d | None => cache_fuzzy cfg w0 q end);
      [discriminate|].
    destruct (limiter_isLimited cfg w0) as [[|] w3] eqn:El; [discriminate|].
    intros H. apply tryApiSearch_await in H as [_ [H1 H2]].
    apply cache_get_shape in Eg as [En0 El0].
    apply isLimited_shape in El as [En3 El3].
    split; [|exact H2].
    rewrite H1, En3, El3, En0, El0.
    apply RateLimiterFacts.cleanup_cleanup. lia.
  - unfold manual_execute.
    destruct (cache_get cfg w q) as [[d|] w0]; discriminate.
Qed.

Lemma finish_limiter (m : SearchMode) (t : string) (r : SearchResult) (w : World) :
  limiter (performSearch_finish m t r w) = limiter w.
Proof.
  unfold performSearch_finish.
  destruct (mode_eqb (searchMode w) m); simpl; [|reflexivity].
  destruct (0 <? List.length (sr_data r))%nat; reflexivity.
Qed.

End BudgetFacts.

(** Claim C10: [rateLimiter.record()] only follows a successful remote
    call. A search that goes remote has, at dispatch, only purged the
    limiter (which no later [isLimited()] or [remaining()] can tell apart
    from the original timestamps), and if the remote call then rejects
    (transport failure, HTTP error, or abort, which [settle] turns into a
    rejection) the limiter is left unchanged; the same holds for the
    manual submit of [handleKeyDown]. *)
Theorem failed_remote_keeps_rate_budget (cfg : Config) :
  (forall w q m w' p,
     performSearch cfg w q m = (w', Some p) ->
     limiter w' = RateLimiter.cleanup (rateLimitWindow cfg) (now w) (limiter w) /\
     forall fo w2, fetch_fails fo = true -> limiter (p_resume p fo w2) = limiter w2) /\
  (forall w w' p,
     handleEnter cfg w = (w', Some p) ->
     limiter w' = limiter w /\
     forall fo w2, fetch_fails fo = true -> limiter (p_resume p fo w2) = limiter w2) /\
  (forall w p fo,
     existsb (Nat.eqb (p_ctrl p)) (aborted w) = true ->
     settle w p fo = p_resume p (NetworkError abort_error) w /\
     fetch_fails (NetworkError abort_error) = true) /\
  (forall limit windowMs t t' reqs,
     t <= t' ->
     RateLimiter.isLimited limit windowMs t' (RateLimiter.cleanup windowMs t reqs) =
       RateLimiter.isLimited limit windowMs t' reqs /\
     RateLimiter.remaining limit windowMs t' (RateLimiter.cleanup windowMs t reqs) =
       RateLimiter.remaining limit windowMs t' reqs).
Proof.
  split; [|split; [|split]].
  - intros w q m w' p. unfold performSearch.
    destruct (negb (str_truthy (trim q)) || (js_length (trim q) <? minQueryLength cfg));
      [discriminate|].
    destruct (execute cfg m _ (trim q)) as [r w2 | q' w2 k] eqn:E; [discriminate|].
    simpl. intros H. injection H as <- <-.
    apply BudgetFacts.execute_await in E as [H1 H2].
    split; [exact H1|].
    intros fo w4 Hf. simpl.
    destruct (BudgetFacts.settle_rejects cfg q' fo Hf) as [e He]. rewrite He.
    specialize (H2 e w4). destruct (k (Rejected e) w4) as [r w5].
    rewrite BudgetFacts.finish_limiter. exact H2.
  - intros w w' p. unfold handleEnter.
    destruct (mode_eqb (searchMode w) Manual && (js_length (trim (query w)) >=? minQueryLength cfg)).
    + simpl. intros H. injection H as <- <-. split; [reflexivity|].
      intros fo w2 Hf. simpl. unfold submit_resume.
      destruct (BudgetFacts.settle_rejects cfg (trim (query w)) fo Hf) as [e He]. rewrite He.
      destruct (negb (String.eqb (e_name e) "AbortError")); reflexivity.
    + destruct (results (apiResult w)); discriminate.
  - intros w p fo H. unfold settle. rewrite H. split; reflexivity.
  - intros limit windowMs t t' reqs Hle.
    unfold RateLimiter.isLimited, RateLimiter.remaining.
    rewrite (RateLimiterFacts.cleanup_cleanup windowMs t t' reqs Hle). split; reflexivity.
Qed.

Lemma failed_remote_keeps_rate_budget_witness :
  (exists w' p,
     performSearch default_config (init_world Balanced) "jo" Balanced = (w', Some p) /\
     limiter w' = [] /\
     limiter (p_resume p (Response false "503" []) w') = [] /\
     settle (handleStrategyChange w' Balanced) p (ok_response [john]) =
       p_resume p (NetworkError abort_error) (handleStrategyChange w' Balanced)) /\
  (exists w' p,
     handleEnter default_config (setQuery "ab" (init_world Manual)) = (w', Some p) /\
     limiter (p_resume p (NetworkError abort_error) w') = limiter w') /\
  RateLimiter.isLimited 1 1000 2000 (RateLimiter.cleanup 1000 500 [0; 1200]) =
    RateLimiter.isLimited 1 1000 2000 [0; 1200].
Proof.
  destruct (failed_remote_keeps_rate_budget default_config) as [P1 [P2 [P3 P4]]].
  split; [|split].
  - destruct (performSearch default_config (init_world Balanced) "jo" Balanced)
      as [w' [p|]] eqn:E; [|vm_compute in E; discriminate E].
    destruct (P1 _ _ _ _ _ E) as [H1 H2].
    exists w', p. split; [reflexivity|]. split; [rewrite H1; reflexivity|].
    split; [rewrite H2 by reflexivity; rewrite H1; reflexivity|].
    apply P3.
    pose proof (f_equal (fun x => (controller (fst x), option_map p_ctrl (snd x))) E) as Hx.
    cbn in Hx. injection Hx as Hw Hp.
    unfold handleStrategyChange, abort_current. simpl. rewrite <- Hw, <- Hp. reflexivity.
  - destruct (handleEnter default_config (setQuery "ab" (init_world Manual)))
      as [w' [p|]] eqn:E; [|vm_compute in E; discriminate E].
    destruct (P2 _ _ _ E) as [_ H2].
    exists w', p. split; [reflexivity|]. apply H2. reflexivity.
  - apply (proj1 (P4 1 1000 500 2000 [0; 1200] ltac:(lia))).
Defined.

(* ================================================================== *)
(** * Further properties of the component *)

(** ** Maps and cache *)

Module MapFacts.

Lemma get_set_same {V} (k : string) (v : V) (m : JsMap.t V) :
  JsMap.get k (JsMap.set k v m) = Some v.
Proof.
  induction m as [|[k' v'] m IH]; simpl; [now rewrite String.eqb_refl|].
  destruct (String.eqb k' k) eqn:E; simpl; rewrite E; [reflexivity|exact IH].
Qed.

Lemma mem_set {V} (x k : string) (v : V) (m : JsMap.t V) :
  existsb (String.eqb x) (JsMap.keys (JsMap.set k v m)) =
  existsb (String.eqb x) (JsMap.keys m) || String.eqb x k.
Proof.
  induction m as [|[k' v'] m IH]; simpl; [now rewrite orb_false_r|].
  destruct (String.eqb k' k) eqn:E; simpl.
  - apply String.eqb_eq in E. subst k'.
    destruct (String.eqb x k); simpl; [reflexivity|now rewrite orb_false_r].
  - rewrite IH. apply orb_assoc.
Qed.

Lemma uniq_set {V} (k : string) (v : V) (m : JsMap.t V) :
  CacheFacts.uniq (JsMap.keys m) = true -> CacheFacts.uniq (JsMap.keys (JsMap.set k v m)) = true.
Proof.
  induction m as [|[k' v'] m IH]; simpl; intros Hu; [reflexivity|].
  apply andb_true_iff in Hu as [Hn Hu].
  destruct (String.eqb k' k) eqn:E; simpl.
  - now rewrite Hn, Hu.
  - rewrite mem_set, E, orb_false_r, Hn. simpl. now apply IH.
Qed.

Lemma length_set {V} (k : string) (v : V) (m : JsMap.t V) :
  (List.length (JsMap.set k v m) <= S (List.length m))%nat.
Proof.
  induction m as [|[k' v'] m IH]; simpl; [lia|].
  destruct (String.eqb k' k); simpl; lia.
Qed.

Lemma truthy_set {V} (k : string) (v : V) (m : JsMap.t V) :
  forallb str_truthy (JsMap.keys m) = true -> str_truthy k = true ->
  forallb str_truthy (JsMap.keys (JsMap.set k v m)) = true.
Proof.
  induction m as [|[k' v'] m IH]; simpl; intros Hm Hk; [now rewrite Hk|].
  apply andb_true_iff in Hm as [H1 H2].
  destruct (String.eqb k' k); simpl; rewrite H1; simpl; auto.
Qed.

Lemma delete_head {V} (k : string) (v : V) (m : JsMap.t V) :
  CacheFacts.uniq (JsMap.keys ((k, v) :: m)) = true -> JsMap.delete k ((k, v) :: m) = m.
Proof.
  simpl. intros H. apply andb_true_iff in H as [Hn _].
  unfold JsMap.delete. simpl. rewrite String.eqb_refl. simpl.
  apply CacheFacts.delete_absent. now apply negb_true_iff.
Qed.

Lemma prefix_refl (s : string) : prefix s s = true.
Proof.
  induction s as [|a s IH]; simpl; [reflexivity|].
  destruct (ascii_dec a a); [exact IH|contradiction].
Qed.

End MapFacts.

(** Extra: a [set(q, data)] followed by [get(q)] at the same instant
    returns [data] (for a non-negative [cacheDuration]), whatever the cache
    held and whatever [set] evicted. *)
Theorem cache_set_then_get {A : Type} (duration maxSize now : Z) (q : string)
    (d : list A) (c : SearchCache.t A) :
  0 <= duration ->
  fst (SearchCache.get duration now q (SearchCache.set maxSize now q d c)) = Some d.
Proof.
  intros Hd. unfold SearchCache.get, SearchCache.set.
  rewrite MapFacts.get_set_same. simpl.
  replace (now - now >? duration) with false by (symmetry; rewrite Z.gtb_ltb; apply Z.ltb_ge; lia).
  reflexivity.
Qed.

Lemma cache_set_then_get_witness :
  fst (SearchCache.get 100 5 "ab" (SearchCache.set 1 5 "ab" [john] abcd_cache)) = Some [john].
Proof. apply cache_set_then_get. lia. Defined.



(** Extra: whatever [fuzzyMatch(q)] returns is the data of an entry that is
    not expired and whose lower-cased key is a prefix of, or contains, the
    lower-cased query. *)
Theorem fuzzyMatch_sound {A : Type} (duration now : Z) (q : string)
    (c : SearchCache.t A) (d : list A) :
  SearchCache.fuzzyMatch duration now q c = Some d ->
  exists k e, In (k, e) c /\ SearchCache.data e = d /\
    now - SearchCache.timestamp e <= duration /\
    (startsWith (toLowerCase q) (toLowerCase k) || includes (toLowerCase k) (toLowerCase q)) = true.
Proof.
  unfold SearchCache.fuzzyMatch.
  induction c as [|[k e] c IH]; simpl; [discriminate|].
  destruct (now - SearchCache.timestamp e >? duration) eqn:Ex.
  - intros H. destruct (IH H) as [k' [e' [Hi Hr]]]. exists k', e'. split; [now right|exact Hr].
  - destruct (startsWith (toLowerCase q) (toLowerCase k) || includes (toLowerCase k) (toLowerCase q)) eqn:Em.
    + intros H. injection H as <-. exists k, e. split; [now left|]. split; [reflexivity|].
      split; [|exact Em]. rewrite Z.gtb_ltb in Ex. apply Z.ltb_ge in Ex. lia.
    + intros H. destruct (IH H) as [k' [e' [Hi Hr]]]. exists k', e'. split; [now right|exact Hr].
Qed.

Lemma fuzzyMatch_sound_witness :
  exists k e, In (k, e) abcd_cache /\ SearchCache.data e = [john] /\
    10 - SearchCache.timestamp e <= 100 /\
    (startsWith (toLowerCase "ABCDE") (toLowerCase k) || includes (toLowerCase k) (toLowerCase "ABCDE")) = true.
Proof. apply (fuzzyMatch_sound 100 10 "ABCDE" abcd_cache [john]). reflexivity. Defined.

(** Extra: a query that is itself a live key of the cache is always found
    by [fuzzyMatch] (perhaps through an earlier matching entry). *)
Theorem fuzzyMatch_finds_live_key {A : Type} (duration now : Z) (q : string)
    (c : SearchCache.t A) (e : SearchCache.CacheEntry A) :
  In (q, e) c -> now - SearchCache.timestamp e <= duration ->
  SearchCache.fuzzyMatch duration now q c <> None.
Proof.
  unfold SearchCache.fuzzyMatch. intros Hin Hlive.
  induction c as [|[k e'] c IH]; [contradiction|].
  simpl. destruct Hin as [Heq | Hin].
  - injection Heq as -> ->.
    replace (now - SearchCache.timestamp e >? duration) with false
      by (symmetry; rewrite Z.gtb_ltb; apply Z.ltb_ge; lia).
    unfold startsWith. rewrite MapFacts.prefix_refl. discriminate.
  - destruct (now - SearchCache.timestamp e' >? duration); [now apply IH|].
    destruct (startsWith (toLowerCase q) (toLowerCase k) || includes (toLowerCase k) (toLowerCase q));
      [discriminate|now apply IH].
Qed.

Lemma fuzzyMatch_finds_live_key_witness :
  SearchCache.fuzzyMatch 100 10 "abcd" abcd_cache <> None.
Proof.
  apply (fuzzyMatch_finds_live_key 100 10 "abcd" abcd_cache
           {| SearchCache.data := [john]; SearchCache.timestamp := 0 |}).
  - now left.
  - simpl. lia.
Defined.

(** ** Rate limiter *)

(** Extra: [isLimited()] and [remaining()] agree: after the same purge,
    the limiter is limited exactly when no call remains. *)
Theorem isLimited_iff_no_remaining (limit windowMs now : Z) (reqs : RateLimiter.t) :
  fst (RateLimiter.isLimited limit windowMs now reqs) =
    (fst (RateLimiter.remaining limit windowMs now reqs) =? 0) /\
  snd (RateLimiter.isLimited limit windowMs now reqs) =
    snd (RateLimiter.remaining limit windowMs now reqs).
Proof.
  unfold RateLimiter.isLimited, RateLimiter.remaining. simpl. split; [|reflexivity].
  set (n := Z.of_nat (List.length (RateLimiter.cleanup windowMs now reqs))).
  destruct (n >=? limit) eqn:E1; symmetry.
  - apply Z.eqb_eq. apply Z.geb_le in E1. lia.
  - apply Z.eqb_neq. rewrite Z.geb_leb, Z.leb_gt in E1. lia.
Qed.

(** Extra: a call recorded at [t] uses one unit of the budget as long as
    [t] is inside the window, and none once the window has moved past
    it. *)
Theorem record_counts_within_window (limit windowMs t t' : Z) (reqs : RateLimiter.t) :
  (t' - windowMs < t ->
     fst (RateLimiter.remaining limit windowMs t' (RateLimiter.record t reqs)) =
       Z.max 0 (fst (RateLimiter.remaining limit windowMs t' reqs) - 1)) /\
  (t <= t' - windowMs ->
     RateLimiter.remaining limit windowMs t' (RateLimiter.record t reqs) =
       RateLimiter.remaining limit windowMs t' reqs).
Proof.
  unfold RateLimiter.remaining, RateLimiter.record.
  rewrite !RateLimiterFacts.cleanup_filter, filter_app. simpl.
  split; intros H.
  - replace (t' - windowMs <? t) with true by (symmetry; now apply Z.ltb_lt).
    rewrite length_app. simpl. lia.
  - replace (t' - windowMs <? t) with false by (symmetry; apply Z.ltb_ge; lia).
    now rewrite app_nil_r.
Qed.

Lemma record_counts_within_window_witness :
  fst (RateLimiter.remaining 3 1000 500 (RateLimiter.record 0 [0])) = 1 /\
  RateLimiter.remaining 3 1000 1500 (RateLimiter.record 0 [0]) =
    RateLimiter.remaining 3 1000 1500 [0].
Proof.
  destruct (record_counts_within_window 3 1000 0 500 [0]) as [H1 _].
  destruct (record_counts_within_window 3 1000 0 1500 [0]) as [_ H2].
  split; [rewrite H1 by lia; reflexivity | apply H2; lia].
Defined.

(** ** Strategies and orchestrator *)

Module UiFacts.

Lemma ui_same_refl (w : World) : ui_same w w.
Proof. repeat split. Qed.

Lemma ui_same_trans (w1 w2 w3 : World) : ui_same w1 w2 -> ui_same w2 w3 -> ui_same w1 w3.
Proof.
  intros [A1 [B1 [C1 D1]]] [A2 [B2 [C2 D2]]].
  repeat split; congruence.
Qed.

Lemma cache_get_ui (cfg : Config) (w w1 : World) (q : string) g :
  cache_get cfg w q = (g, w1) -> ui_same w w1 /\ now w1 = now w.
Proof.
  unfold cache_get. destruct (SearchCache.get _ _ _ _). intros H.
  injection H as _ <-. repeat split.
Qed.

Lemma isLimited_ui (cfg : Config) (w w1 : World) b :
  limiter_isLimited cfg w = (b, w1) -> ui_same w w1 /\ now w1 = now w.
Proof.
  unfold limiter_isLimited. destruct (RateLimiter.isLimited _ _ _ _). intros H.
  injection H as _ <-. repeat split.
Qed.

Definition exec_ui (w : World) (e : Exec) : Prop :=
  match e with
  | Done _ w' => ui_same w w'
  | Await _ w1 k => ui_same w w1 /\ forall o w2, ui_same w2 (snd (k o w2))
  end.

Lemma tryApiSearch_ui (cfg : Config) (w : World) (q : string) :
  exec_ui w (tryApiSearch cfg w q).
Proof.
  unfold tryApiSearch. destruct (limiter_isLimited cfg w) as [[|] w1] eqn:E;
    apply isLimited_ui in E as [E _]; simpl; [exact E|].
  split; [exact E|]. intros [d|e] w2; simpl; [repeat split|apply ui_same_refl].
Qed.

Lemma exec_ui_weaken (w w0 : World) (e : Exec) :
  ui_same w w0 -> exec_ui w0 e -> exec_ui w e.
Proof.
  destruct e; simpl; [apply ui_same_trans|].
  intros H [H1 H2]. split; [eapply ui_same_trans; eauto|exact H2].
Qed.

Lemma execute_ui (cfg : Config) (m : SearchMode) (w : World) (q : string) :
  exec_ui w (execute cfg m w q).
Proof.
  destruct m; simpl.
  - apply tryApiSearch_ui.
  - unfold balanced_execute.
    destruct (cache_get cfg w q) as [g w1] eqn:Eg. apply cache_get_ui in Eg as [Eg _].
    destruct g as [d|]; [exact Eg|].
    destruct (cache_fuzzy cfg w1 q); [exact Eg|].
    apply (exec_ui_weaken w w1); [exact Eg|].
    pose proof (tryApiSearch_ui cfg w1 q) as T.
    destruct (tryApiSearch cfg w1 q) as [r w2 | q' w2 k]; simpl in T |- *.
    + destruct (err_truthy (sr_error r) && (List.length (sr_data r) =? 0)%nat);
        [destruct (0 <? List.length (performLocalSearch cfg w2 q))%nat|]; exact T.
    + destruct T as [T1 T2]. split; [exact T1|]. intros o w3.
      specialize (T2 o w3). destruct (k o w3) as [r w4]. simpl in T2 |- *.
      destruct (err_truthy (sr_error r) && (List.length (sr_data r) =? 0)%nat);
        [destruct (0 <? List.length (performLocalSearch cfg w4 q))%nat|]; exact T2.
  - unfold conservative_execute.
    destruct (js_length q <=? 3); [apply ui_same_refl|].
    destruct (cache_get cfg w q) as [g w1] eqn:Eg. apply cache_get_ui in Eg as [Eg _].
    destruct (match g with Some d => Some d | None => cache_fuzzy cfg w1 q end); [exact Eg|].
    destruct (limiter_isLimited cfg w1) as [[|] w2] eqn:El; apply isLimited_ui in El as [El _].
    + eapply ui_same_trans; eauto.
    + apply (exec_ui_weaken w w2); [eapply ui_same_trans; eauto|apply tryApiSearch_ui].
  - unfold manual_execute.
    destruct (cache_get cfg w q) as [g w1] eqn:Eg. apply cache_get_ui in Eg as [Eg _].
    destruct g; exact Eg.
Qed.

End UiFacts.

Module ModeFacts.

Lemma mode_eqb_refl (m : SearchMode) : mode_eqb m m = true.
Proof. now destruct m. Qed.

Lemma mode_eqb_neq (a b : SearchMode) : a <> b -> mode_eqb a b = false.
Proof. destruct a, b; simpl; congruence. Qed.

Lemma cache_get_hit (cfg : Config) (w : World) (q : string) (d : list User) :
  fst (SearchCache.get (cacheDuration cfg) (now w) q (cache w)) = Some d ->
  cache_get cfg w q = (Some d, w).
Proof.
  unfold cache_get, SearchCache.get.
  destruct (JsMap.get q (cache w)) as [e|]; simpl; [|discriminate].
  destruct (now w - SearchCache.timestamp e >? cacheDuration cfg); simpl; [discriminate|].
  intros H. injection H as ->. now destruct w.
Qed.

Lemma manual_execute_done (cfg : Config) (w : World) (q : string) :
  exists r w', manual_execute cfg w q = Done r w'.
Proof.
  unfold manual_execute. destruct (cache_get cfg w q) as [[d|] w1]; eauto.
Qed.

End ModeFacts.

Ltac stats_step_tac :=
  unfold stats_step;
  first [ left; reflexivity | right; left; reflexivity
        | right; right; left; reflexivity | right; right; right; reflexivity ].

Module StatsFacts.

Lemma finish_stats (m : SearchMode) (t : string) (r : SearchResult) (w : World) :
  stats_step (stats w) (stats (performSearch_finish m t r w)).
Proof.
  unfold performSearch_finish.
  destruct (negb (mode_eqb (searchMode w) m)); [simpl; stats_step_tac|].
  destruct (0 <? List.length (sr_data r))%nat; simpl;
    destruct (sr_source r); stats_step_tac.
Qed.

Lemma stats_step_eq (s s0 s' : SearchStats) : s0 = s -> stats_step s0 s' -> stats_step s s'.
Proof. now intros ->. Qed.

End StatsFacts.

(** Extra: outside Instant mode, an exact live cache entry for the query
    (longer than 3 characters in Conservative mode) is returned as a cache
    result without any remote call, and the state is left as it was
    (neither the cache nor the rate limiter changes). *)
Theorem exact_hit_served_from_cache (cfg : Config) (m : SearchMode) (w : World)
    (q : string) (d : list User) :
  m <> Instant -> (m = Conservative -> 3 < js_length q) ->
  fst (SearchCache.get (cacheDuration cfg) (now w) q (cache w)) = Some d ->
  execute cfg m w q = Done (mkResult d SrcCache None) w.
Proof.
  intros Hm Hc Hg. pose proof (ModeFacts.cache_get_hit cfg w q d Hg) as E.
  destruct m; simpl.
  - contradiction.
  - unfold balanced_execute. now rewrite E.
  - unfold conservative_execute.
    replace (js_length q <=? 3) with false by (symmetry; apply Z.leb_gt; auto).
    now rewrite E.
  - unfold manual_execute. now rewrite E.
Qed.

Lemma exact_hit_served_from_cache_witness :
  execute default_config Balanced cached_world "abcd" =
    Done (mkResult [john] SrcCache None) cached_world.
Proof.
  apply exact_hit_served_from_cache; [discriminate|discriminate|reflexivity].
Defined.

(** Extra: in Manual mode a keystroke never starts a remote call, and
    outside Manual mode Enter never starts one. *)
Theorem manual_typing_never_fetches (cfg : Config) (w : World) (q : string) :
  (searchMode w = Manual -> snd (handleInputChange cfg w q) = None) /\
  (searchMode w <> Manual -> snd (handleEnter cfg w) = None).
Proof.
  split; intros Hm.
  - unfold handleInputChange. cbn [searchMode setApiResult setQuery]. rewrite Hm.
    destruct (negb (str_truthy (trim q))); [reflexivity|]. cbn [mode_eqb].
    destruct (js_length (trim q) >=? minQueryLength cfg); [|reflexivity].
    unfold performSearch.
    destruct (negb (str_truthy (trim (trim q))) || (js_length (trim (trim q)) <? minQueryLength cfg));
      [reflexivity|].
    cbn [execute].
    destruct (ModeFacts.manual_execute_done cfg
                (setApiResult (fun a => set_loading true (set_error None a))
                   (setApiResult (set_error None) (setQuery q w))) (trim (trim q)))
      as [r [w' E]].
    now rewrite E.
  - unfold handleEnter. rewrite (ModeFacts.mode_eqb_neq _ _ Hm). simpl.
    destruct (results (apiResult w)); reflexivity.
Qed.

Lemma manual_typing_never_fetches_witness :
  snd (handleInputChange default_config (init_world Manual) "john") = None /\
  snd (handleEnter default_config (setQuery "john" (init_world Instant))) = None.
Proof.
  destruct (manual_typing_never_fetches default_config (init_world Manual) "john") as [H1 _].
  destruct (manual_typing_never_fetches default_config (setQuery "john" (init_world Instant)) "john")
    as [_ H2].
  split; [apply H1; reflexivity|apply H2; discriminate].
Defined.

(** Extra: a remote call started by [performSearch(q, m)] whose awaiting
    code resumes after the mode has changed away from [m] only clears the
    loading flag: the results, the error, the dropdown, the statistics and
    LocalHistory stay as they are. *)
Theorem stale_mode_result_discarded (cfg : Config) (w : World) (q : string) (m : SearchMode)
    (fo : FetchOutcome) (w2 : World) :
  searchMode w2 <> m ->
  match snd (performSearch cfg w q m) with
  | Some p =>
      apiResult (p_resume p fo w2) = set_loading false (apiResult w2) /\
      stats (p_resume p fo w2) = stats w2 /\ recent (p_resume p fo w2) = recent w2
  | None => True
  end.
Proof.
  intros Hm. unfold performSearch.
  destruct (negb (str_truthy (trim q)) || (js_length (trim q) <? minQueryLength cfg)); [exact I|].
  pose proof (UiFacts.execute_ui cfg m
                (setApiResult (fun a => set_loading true (set_error None a)) w) (trim q)) as E.
  destruct (execute cfg m _ (trim q)) as [r w3 | q' w3 k]; [exact I|].
  destruct E as [_ E]. destruct (performApiSearch_start w3) as [c w4]. cbn [snd p_resume].
  specialize (E (performApiSearch_settle cfg q' fo) w2).
  destruct (k (performApiSearch_settle cfg q' fo) w2) as [r w5]. simpl in E.
  destruct E as [Ea [Es [Er Em]]].
  unfold performSearch_finish. rewrite Em, (ModeFacts.mode_eqb_neq _ _ Hm). simpl.
  rewrite Ea, Es, Er. auto.
Qed.

Lemma stale_mode_result_discarded_witness :
  match snd (performSearch default_config (init_world Instant) "john" Instant) with
  | Some p =>
      apiResult (p_resume p (ok_response [john]) (init_world Manual)) =
        set_loading false (apiResult (init_world Manual)) /\
      stats (p_resume p (ok_response [john]) (init_world Manual)) = stats (init_world Manual) /\
      recent (p_resume p (ok_response [john]) (init_world Manual)) = recent (init_world Manual)
  | None => True
  end.
Proof. apply stale_mode_result_discarded. discriminate. Defined.

(** Extra: a search moves the statistics by at most one step (one counter
    up by one, or nothing); a search that goes remote counts nothing until
    its call settles, and then at most one step; so does the manual
    submit's [.then]/[.catch]. *)
Theorem search_counts_at_most_once (cfg : Config) (w : World) (q : string) (m : SearchMode) :
  stats_step (stats w) (stats (fst (performSearch cfg w q m))) /\
  match snd (performSearch cfg w q m) with
  | Some p => stats (fst (performSearch cfg w q m)) = stats w /\
              forall fo w2, stats_step (stats w2) (stats (p_resume p fo w2))
  | None => True
  end /\
  (forall t fo w2, stats_step (stats w2) (stats (submit_resume cfg t fo w2))).
Proof.
  split; [|split].
  - unfold performSearch.
    destruct (negb (str_truthy (trim q)) || (js_length (trim q) <? minQueryLength cfg));
      [simpl; stats_step_tac|].
    pose proof (UiFacts.execute_ui cfg m
                  (setApiResult (fun a => set_loading true (set_error None a)) w) (trim q)) as E.
    destruct (execute cfg m _ (trim q)) as [r w3 | q' w3 k].
    + destruct E as [_ [Es _]]. simpl.
      apply (StatsFacts.stats_step_eq _ (stats w3)); [exact Es|apply StatsFacts.finish_stats].
    + destruct E as [[_ [Es _]] _]. simpl. rewrite Es. simpl. stats_step_tac.
  - unfold performSearch.
    destruct (negb (str_truthy (trim q)) || (js_length (trim q) <? minQueryLength cfg)); [exact I|].
    pose proof (UiFacts.execute_ui cfg m
                  (setApiResult (fun a => set_loading true (set_error None a)) w) (trim q)) as E.
    destruct (execute cfg m _ (trim q)) as [r w3 | q' w3 k]; [exact I|].
    destruct E as [[_ [Es _]] E]. simpl. split; [now rewrite Es|].
    intros fo w2. specialize (E (performApiSearch_settle cfg q' fo) w2).
    destruct (k (performApiSearch_settle cfg q' fo) w2) as [r w5]. destruct E as [_ [Es5 _]].
    apply (StatsFacts.stats_step_eq _ (stats w5)); [exact Es5|apply StatsFacts.finish_stats].
  - intros t fo w2. unfold submit_resume.
    destruct (performApiSearch_settle cfg t fo) as [d|e]; simpl; [stats_step_tac|].
    destruct (negb (String.eqb (e_name e) "AbortError")); simpl; stats_step_tac.
Qed.



(** ** Invariants of the event loop *)

Module RunFacts.

Section RunInvariant.
Variable cfg : Config.
Variable P : World -> Prop.

Definition pend_ok (p : Pending) : Prop := forall fo w, P w -> P (p_resume p fo w).

Definition handler_ok (h : World -> World * option Pending) : Prop :=
  forall w, P w -> P (fst (h w)) /\
    match snd (h w) with Some p => pend_ok p | None => True end.

Hypothesis H_input : forall q, handler_ok (fun w => handleInputChange cfg w q).
Hypothesis H_debounce : handler_ok (debounceFire cfg).
Hypothesis H_enter : handler_ok (handleEnter cfg).
Hypothesis H_tick : forall w dt, P w -> P (with_now (now w + dt) w).
Hypothesis H_select : forall w m, P w -> P (handleStrategyChange w m).
Hypothesis H_clear : forall w, P w -> P (clearSearch w).

Lemma Forall_remove_nth (i : nat) (l : list Pending) :
  Forall pend_ok l -> Forall pend_ok (remove_nth i l).
Proof.
  revert i. induction l as [|x l IH]; intros [|i] H; simpl; auto;
    inversion H; subst; auto.
Qed.

Lemma handler_push (h : World -> World * option Pending) (w : World) (pend : list Pending) :
  handler_ok h -> P w -> Forall pend_ok pend ->
  P (fst (h w)) /\ Forall pend_ok (push pend (snd (h w))).
Proof.
  intros Hh Hw Hp. destruct (Hh w Hw) as [H1 H2]. split; [exact H1|].
  destruct (snd (h w)) as [p|]; simpl; [|exact Hp].
  apply Forall_app; split; auto.
Qed.

Lemma step_ok (s : Sys) (ev : Event) :
  P (fst s) -> Forall pend_ok (snd s) ->
  P (fst (step cfg s ev)) /\ Forall pend_ok (snd (step cfg s ev)).
Proof.
  destruct s as [w pend]; simpl; intros Hw Hp.
  destruct ev as [q| | |i fo|dt|m|]; simpl.
  - pose proof (handler_push (fun w => handleInputChange cfg w q) w pend (H_input q) Hw Hp) as H.
    simpl in H. destruct (handleInputChange cfg w q). exact H.
  - pose proof (handler_push (debounceFire cfg) w pend H_debounce Hw Hp) as H.
    destruct (debounceFire cfg w). exact H.
  - pose proof (handler_push (handleEnter cfg) w pend H_enter Hw Hp) as H.
    destruct (handleEnter cfg w). exact H.
  - destruct (nth_error pend i) as [p|] eqn:E; simpl; [|auto].
    split; [|now apply Forall_remove_nth].
    unfold settle. apply (proj1 (Forall_forall _ _) Hp p (nth_error_In _ _ E)). exact Hw.
  - auto.
  - auto.
  - auto.
Qed.

Lemma run_ok (evs : list Event) (s : Sys) :
  P (fst s) -> Forall pend_ok (snd s) ->
  P (fst (run cfg s evs)) /\ Forall pend_ok (snd (run cfg s evs)).
Proof.
  unfold run. revert s. induction evs as [|ev evs IH]; simpl; intros s H1 H2; [auto|].
  destruct (step_ok s ev H1 H2). apply IH; auto.
Qed.

End RunInvariant.

End RunFacts.

Module HistoryFacts.

(** LocalHistory is well formed: distinct, non-empty keys, at most 20 of
    them. *)
Definition hist_ok (m : JsMap.t (list User)) : Prop :=
  CacheFacts.uniq (JsMap.keys m) = true /\ forallb str_truthy (JsMap.keys m) = true /\
  (JsMap.size m <= 20)%nat.

Lemma recent_write_ok (q : string) (d : list User) (m : JsMap.t (list User)) :
  hist_ok m -> str_truthy q = true ->
  hist_ok (recent_write q d m) /\ JsMap.get q (recent_write q d m) = Some d.
Proof.
  intros [Hu [Ht Hs]] Hq. unfold hist_ok, recent_write, JsMap.size in *.
  pose proof (MapFacts.uniq_set q d m Hu) as Hu1.
  pose proof (MapFacts.truthy_set q d m Ht Hq) as Ht1.
  pose proof (MapFacts.get_set_same q d m) as Hg1.
  destruct m as [|[k0 v0] m0].
  - simpl in *. rewrite Hq. simpl. split; [repeat split; lia|exact Hg1].
  - cbn [JsMap.set] in Hu1, Ht1, Hg1 |- *. cbn [List.length] in Hs.
    destruct (String.eqb k0 q) eqn:Ek.
    + cbn [List.length]. replace ((20 <? S (List.length m0))%nat) with false
        by (symmetry; apply Nat.ltb_ge; lia).
      split; [repeat split; auto|exact Hg1].
    + cbn [List.length].
      pose proof (MapFacts.length_set q d m0) as Hl.
      destruct ((20 <? S (List.length (JsMap.set q d m0)))%nat) eqn:Hb.
      * cbn [JsMap.keys map] in Ht1 |- *. apply andb_true_iff in Ht1 as [Hk0 Ht2].
        cbn [fst] in Hk0 |- *. rewrite Hk0. rewrite (MapFacts.delete_head k0 v0 _ Hu1).
        cbn [JsMap.keys map] in Hu1. apply andb_true_iff in Hu1 as [_ Hu2].
        split; [repeat split; auto; lia|].
        apply MapFacts.get_set_same.
      * apply Nat.ltb_ge in Hb. split; [repeat split; auto|exact Hg1].
Qed.

Lemma finish_hist (m : SearchMode) (t : string) (r : SearchResult) (w : World) :
  str_truthy t = true -> hist_ok (recent w) ->
  hist_ok (recent (performSearch_finish m t r w)).
Proof.
  intros Ht Hw. unfold performSearch_finish.
  destruct (negb (mode_eqb (searchMode w) m)); [exact Hw|].
  destruct (0 <? List.length (sr_data r))%nat; cbn [recent setApiResult with_recent setSearchStats];
    [apply recent_write_ok; auto|exact Hw].
Qed.

Lemma submit_resume_recent (cfg : Config) (t : string) (fo : FetchOutcome) (w : World) :
  recent (submit_resume cfg t fo w) = recent w.
Proof.
  unfold submit_resume. destruct (performApiSearch_settle cfg t fo); [reflexivity|].
  destruct (negb _); reflexivity.
Qed.

Definition P (w : World) : Prop := hist_ok (recent w).

Lemma hist_performSearch_ok (cfg : Config) (q : string) (m : SearchMode) :
  RunFacts.handler_ok P (fun w => performSearch cfg w q m).
Proof.
  intros w Hw. unfold P in *. unfold performSearch.
  destruct (str_truthy (trim q)) eqn:Ht; [|split; [exact Hw|exact I]].
  destruct (js_length (trim q) <? minQueryLength cfg); [split; [exact Hw|exact I]|].
  cbn [negb orb].
  pose proof (UiFacts.execute_ui cfg m
                (setApiResult (fun a => set_loading true (set_error None a)) w) (trim q)) as E.
  destruct (execute cfg m _ (trim q)) as [r w3 | q' w3 k].
  - destruct E as [_ [_ [Er _]]]. split; [|exact I].
    apply finish_hist; [exact Ht|]. rewrite Er. exact Hw.
  - destruct E as [[_ [_ [Er _]]] E]. split; [simpl; rewrite Er; exact Hw|].
    intros fo w2 H2. simpl. specialize (E (performApiSearch_settle cfg q' fo) w2).
    destruct (k (performApiSearch_settle cfg q' fo) w2) as [r w5]. simpl in E.
    destruct E as [_ [_ [Er5 _]]].
    apply finish_hist; [exact Ht|]. unfold P. rewrite Er5. exact H2.
Qed.

Lemma hist_input_ok (cfg : Config) (q : string) :
  RunFacts.handler_ok P (fun w => handleInputChange cfg w q).
Proof.
  intros w Hw. unfold handleInputChange.
  destruct (negb (str_truthy (trim q))); [split; [exact Hw|exact I]|].
  destruct (mode_eqb _ Manual); [|split; [exact Hw|exact I]].
  destruct (_ >=? _); [|split; [exact Hw|exact I]].
  apply hist_performSearch_ok. exact Hw.
Qed.

Lemma hist_debounce_ok (cfg : Config) : RunFacts.handler_ok P (debounceFire cfg).
Proof.
  intros w Hw. unfold debounceFire.
  destruct (debounced w) as [[q m]|]; [|split; [exact Hw|exact I]].
  apply hist_performSearch_ok. exact Hw.
Qed.

Lemma hist_enter_ok (cfg : Config) : RunFacts.handler_ok P (handleEnter cfg).
Proof.
  intros w Hw. unfold handleEnter.
  destruct (_ && _).
  - unfold performApiSearch_start. cbn [fst snd p_resume].
    split; [exact Hw|]. intros fo w2 H2. cbn [p_resume]. unfold P. now rewrite submit_resume_recent.
  - destruct (results (apiResult w)); split; first [exact Hw|exact I].
Qed.

Lemma run_hist (cfg : Config) (evs : list Event) (s : Sys) :
  P (fst s) -> Forall (RunFacts.pend_ok P) (snd s) ->
  P (fst (run cfg s evs)).
Proof.
  intros H1 H2. apply (RunFacts.run_ok cfg P (hist_input_ok cfg) (hist_debounce_ok cfg) (hist_enter_ok cfg));
    auto.
Qed.

End HistoryFacts.



(** Extra: in any run of the component from its initial state, whatever
    the events (keystrokes, debounce timers, Enter, settling calls in any
    order, clock ticks, mode switches, clears), LocalHistory has distinct,
    non-empty keys and at most 20 entries. *)
Theorem history_bounded_in_any_run (cfg : Config) (m : SearchMode) (evs : list Event) :
  let w := fst (run cfg (init_world m, []) evs) in
  CacheFacts.uniq (JsMap.keys (recent w)) = true /\
  forallb str_truthy (JsMap.keys (recent w)) = true /\
  (JsMap.size (recent w) <= 20)%nat.
Proof.
  apply HistoryFacts.run_hist.
  - repeat split; simpl; lia.
  - constructor.
Qed.

Module ResultsBound.

Lemma slice0_bound {A} (l : list A) (n : Z) :
  0 <= n -> (List.length (slice0 l n) <= Z.to_nat n)%nat.
Proof.
  intros Hn. unfold slice0.
  replace (n <? 0) with false by (symmetry; apply Z.ltb_ge; lia).
  rewrite length_firstn. lia.
Qed.

Lemma In_delete {V} (k : string) (x : string * V) (m : JsMap.t V) :
  In x (JsMap.delete k m) -> In x m.
Proof. unfold JsMap.delete. intros H. now apply filter_In in H as [H _]. Qed.

Lemma In_set {V} (q k : string) (v e : V) (m : JsMap.t V) :
  In (k, e) (JsMap.set q v m) -> In (k, e) m \/ e = v.
Proof.
  induction m as [|[k' v'] m IH]; simpl.
  - intros [H|[]]. injection H as _ ->. now right.
  - destruct (String.eqb k' q); simpl.
    + intros [H|H]; [injection H as _ ->; now right|now left; right].
    + intros [H|H]; [now left; left|]. destruct (IH H); auto.
Qed.

Lemma get_In {V} (q : string) (v : V) (m : JsMap.t V) :
  JsMap.get q m = Some v -> exists k, In (k, v) m.
Proof.
  induction m as [|[k' v'] m IH]; simpl; [discriminate|].
  destruct (String.eqb k' q).
  - intros H. injection H as ->. exists k'. now left.
  - intros H. destruct (IH H) as [k Hk]. exists k. now right.
Qed.

Lemma fuzzy_In {A} (duration now : Z) (lq : string) (c : SearchCache.t A) (d : list A) :
  SearchCache.fuzzy_loop duration now lq c = Some d ->
  exists k e, In (k, e) c /\ SearchCache.data e = d.
Proof.
  induction c as [|[k e] c IH]; simpl; [discriminate|].
  destruct (now - SearchCache.timestamp e >? duration).
  - intros H. destruct (IH H) as [k' [e' [Hi He]]]. exists k', e'. auto.
  - destruct (_ || _).
    + intros H. injection H as <-. exists k, e. auto.
    + intros H. destruct (IH H) as [k' [e' [Hi He]]]. exists k', e'. auto.
Qed.

Section Bound.
Variable cfg : Config.
Hypothesis Hmax : 0 <= maxResults cfg.

Definition bnd (l : list User) : Prop := (List.length l <= Z.to_nat (maxResults cfg))%nat.

Definition cache_ok (c : SearchCache.t User) : Prop :=
  forall k e, In (k, e) c -> bnd (SearchCache.data e).

Definition out_ok (o : ApiOutcome) : Prop :=
  match o with Resolved d => bnd d | Rejected _ => True end.

Definition exec_ok (e : Exec) : Prop :=
  match e with
  | Done r w' => bnd (sr_data r) /\ cache_ok (cache w')
  | Await _ w1 k =>
      cache_ok (cache w1) /\
      forall o w2, out_ok o -> cache_ok (cache w2) ->
        bnd (sr_data (fst (k o w2))) /\ cache_ok (cache (snd (k o w2)))
  end.

Lemma bnd_nil : bnd [].
Proof. unfold bnd. simpl. lia. Qed.

Lemma settle_ok (q : string) (fo : FetchOutcome) : out_ok (performApiSearch_settle cfg q fo).
Proof.
  destruct fo as [[|] st body|e]; simpl; auto.
  unfold bnd, api_filter. now apply slice0_bound.
Qed.

Lemma local_ok (w : World) (q : string) : bnd (performLocalSearch cfg w q).
Proof. unfold bnd, performLocalSearch. now apply slice0_bound. Qed.

Lemma cache_get_ok (w : World) (q : string) :
  cache_ok (cache w) ->
  cache_ok (cache (snd (cache_get cfg w q))) /\
  forall d, fst (cache_get cfg w q) = Some d -> bnd d.
Proof.
  intros Hc. unfold cache_get, SearchCache.get.
  destruct (JsMap.get q (cache w)) as [e|] eqn:Eg; simpl; [|split; [exact Hc|discriminate]].
  destruct (now w - SearchCache.timestamp e >? cacheDuration cfg); simpl.
  - split; [|discriminate]. intros k e' Hi. apply (Hc k). now apply In_delete in Hi.
  - split; [exact Hc|]. intros d H. injection H as <-.
    destruct (get_In _ _ _ Eg) as [k Hk]. exact (Hc k e Hk).
Qed.

Lemma cache_fuzzy_ok (w : World) (q : string) (d : list User) :
  cache_ok (cache w) -> cache_fuzzy cfg w q = Some d -> bnd d.
Proof.
  intros Hc H. unfold cache_fuzzy, SearchCache.fuzzyMatch in H.
  destruct (fuzzy_In _ _ _ _ _ H) as [k [e [Hi <-]]]. exact (Hc k e Hi).
Qed.

Lemma cache_set_ok (w : World) (q : string) (d : list User) :
  cache_ok (cache w) -> bnd d -> cache_ok (cache (cache_set cfg w q d)).
Proof.
  intros Hc Hd k e Hi. simpl in Hi. unfold SearchCache.set in Hi.
  apply In_set in Hi as [Hi| ->]; [|exact Hd].
  apply (Hc k).
  destruct (Z.of_nat (JsMap.size (cache w)) >=? maxCacheSize cfg); [|exact Hi].
  destruct (JsMap.keys (cache w)) as [|fk ks]; [exact Hi|].
  destruct (str_truthy fk); [now apply In_delete in Hi|exact Hi].
Qed.

Lemma tryApiSearch_ok (w : World) (q : string) :
  cache_ok (cache w) -> exec_ok (tryApiSearch cfg w q).
Proof.
  intros Hc. unfold tryApiSearch, limiter_isLimited.
  destruct (RateLimiter.isLimited _ _ _ _) as [[|] l]; simpl.
  - split; [apply bnd_nil|exact Hc].
  - split; [exact Hc|]. intros [d|e] w2 Ho Hc2; simpl.
    + split; [exact Ho|]. apply (cache_set_ok (limiter_record w2)); [exact Hc2|exact Ho].
    + split; [apply bnd_nil|exact Hc2].
Qed.

Lemma balanced_post_ok (q : string) (r : SearchResult) (w : World) :
  bnd (sr_data r) ->
  bnd (sr_data (fst (if err_truthy (sr_error r) && (List.length (sr_data r) =? 0)%nat then
      let localData := performLocalSearch cfg w q in
      if (0 <? List.length localData)%nat
      then (mkResult localData SrcLocal (Some balanced_degraded_msg), w)
      else (r, w)
    else (r, w)))) /\
  snd (if err_truthy (sr_error r) && (List.length (sr_data r) =? 0)%nat then
      let localData := performLocalSearch cfg w q in
      if (0 <? List.length localData)%nat
      then (mkResult localData SrcLocal (Some balanced_degraded_msg), w)
      else (r, w)
    else (r, w)) = w.
Proof.
  intros Hr. destruct (_ && _); [|auto]. cbv zeta.
  destruct (0 <? List.length (performLocalSearch cfg w q))%nat; simpl;
    [split; [apply local_ok|reflexivity]|auto].
Qed.

Lemma exec_then_ok (e : Exec) (f : SearchResult -> World -> SearchResult * World) :
  exec_ok e ->
  (forall r w, bnd (sr_data r) -> bnd (sr_data (fst (f r w))) /\ snd (f r w) = w) ->
  exec_ok (exec_then e f).
Proof.
  intros He Hf. destruct e as [r w | q w k]; simpl in He |- *.
  - destruct He as [Hr Hc]. destruct (Hf r w Hr) as [H1 H2].
    destruct (f r w) as [r' w']. simpl in H1, H2 |- *. subst w'. auto.
  - destruct He as [Hc Hk]. split; [exact Hc|]. intros o w2 Ho Hc2.
    destruct (Hk o w2 Ho Hc2) as [Kr Kc].
    destruct (k o w2) as [r w4]. simpl in Kr, Kc.
    destruct (Hf r w4 Kr) as [H1 H2].
    destruct (f r w4) as [r' w']. simpl in H1, H2 |- *. subst w'. auto.
Qed.

Lemma execute_ok (m : SearchMode) (w : World) (q : string) :
  cache_ok (cache w) -> exec_ok (execute cfg m w q).
Proof.
  intros Hc. destruct m; simpl.
  - now apply tryApiSearch_ok.
  - unfold balanced_execute.
    destruct (cache_get_ok w q Hc) as [Hc1 Hg].
    destruct (cache_get cfg w q) as [g w1]. simpl in Hc1, Hg.
    destruct g as [d|]; [split; [now apply Hg|exact Hc1]|].
    destruct (cache_fuzzy cfg w1 q) as [d|] eqn:Ef;
      [split; [exact (cache_fuzzy_ok w1 q d Hc1 Ef)|exact Hc1]|].
    apply exec_then_ok; [now apply tryApiSearch_ok|].
    intros r w2 Hr. cbv beta. now apply balanced_post_ok.
  - unfold conservative_execute.
    destruct (js_length q <=? 3); [split; [apply local_ok|exact Hc]|].
    destruct (cache_get_ok w q Hc) as [Hc1 Hg].
    destruct (cache_get cfg w q) as [g w1]. simpl in Hc1, Hg.
    destruct (match g with Some d => Some d | None => cache_fuzzy cfg w1 q end) as [d|] eqn:Eg.
    + split; [|exact Hc1]. destruct g as [d0|]; [injection Eg as <-; now apply Hg|].
      exact (cache_fuzzy_ok w1 q d Hc1 Eg).
    + unfold limiter_isLimited.
      destruct (RateLimiter.isLimited _ _ _ _) as [[|] l]; simpl.
      * split; [apply local_ok|exact Hc1].
      * apply (tryApiSearch_ok (with_limiter l w1) q). exact Hc1.
  - unfold manual_execute.
    destruct (cache_get_ok w q Hc) as [Hc1 Hg].
    destruct (cache_get cfg w q) as [g w1]. simpl in Hc1, Hg.
    destruct g as [d|]; [split; [now apply Hg|exact Hc1]|].
    split; [apply local_ok|exact Hc1].
Qed.

Definition P (w : World) : Prop := cache_ok (cache w) /\ bnd (results (apiResult w)).

Lemma finish_ok (m : SearchMode) (t : string) (r : SearchResult) (w : World) :
  bnd (sr_data r) -> P w -> P (performSearch_finish m t r w).
Proof.
  intros Hr [Hc Hw]. unfold performSearch_finish.
  destruct (negb (mode_eqb (searchMode w) m)); [split; assumption|].
  destruct (0 <? List.length (sr_data r))%nat; split; assumption.
Qed.

Lemma bound_performSearch_ok (q : string) (m : SearchMode) :
  RunFacts.handler_ok P (fun w => performSearch cfg w q m).
Proof.
  intros w [Hc Hw]. unfold performSearch.
  destruct (negb (str_truthy (trim q)) || (js_length (trim q) <? minQueryLength cfg)).
  - split; [split; [exact Hc|apply bnd_nil]|exact I].
  - set (w1 := setApiResult (fun a => set_loading true (set_error None a)) w).
    pose proof (UiFacts.execute_ui cfg m w1 (trim q)) as U.
    pose proof (execute_ok m w1 (trim q) Hc) as E.
    destruct (execute cfg m w1 (trim q)) as [r w3 | q' w3 k].
    + destruct U as [Ua _]. destruct E as [Er Ec]. split; [|exact I].
      apply finish_ok; [exact Er|]. split; [exact Ec|]. unfold P. rewrite Ua. exact Hw.
    + destruct U as [[Ua _] Uk]. destruct E as [Ec Ek]. simpl.
      split; [split; [exact Ec|cbn [apiResult with_controllers]; rewrite Ua; exact Hw]|].
      intros fo w2 [Hc2 Hw2]. cbn [p_resume].
      destruct (Ek (performApiSearch_settle cfg q' fo) w2 (settle_ok q' fo) Hc2) as [Kr Kc].
      specialize (Uk (performApiSearch_settle cfg q' fo) w2).
      destruct (k (performApiSearch_settle cfg q' fo) w2) as [r w5]. simpl in Kr, Kc, Uk.
      destruct Uk as [Ua5 _].
      apply finish_ok; [exact Kr|]. split; [exact Kc|]. rewrite Ua5. exact Hw2.
Qed.

End Bound.

End ResultsBound.

Module ResultsRun.

Section Run.
Variable cfg : Config.
Hypothesis Hmax : 0 <= maxResults cfg.

Lemma bound_input_ok (q : string) :
  RunFacts.handler_ok (ResultsBound.P cfg) (fun w => handleInputChange cfg w q).
Proof.
  intros w [Hc Hw]. unfold handleInputChange.
  destruct (negb (str_truthy (trim q))).
  - split; [split; [exact Hc|apply ResultsBound.bnd_nil]|exact I].
  - destruct (mode_eqb _ Manual); [destruct (_ >=? _)|].
    + apply ResultsBound.bound_performSearch_ok; [exact Hmax|split; assumption].
    + split; [split; [exact Hc|apply ResultsBound.bnd_nil]|exact I].
    + split; [split; [exact Hc|exact Hw]|exact I].
Qed.

Lemma bound_debounce_ok : RunFacts.handler_ok (ResultsBound.P cfg) (debounceFire cfg).
Proof.
  intros w Hw. unfold debounceFire.
  destruct (debounced w) as [[q m]|]; [|split; [exact Hw|exact I]].
  apply ResultsBound.bound_performSearch_ok; [exact Hmax|exact Hw].
Qed.

Lemma submit_ok (t : string) (fo : FetchOutcome) (w : World) :
  ResultsBound.P cfg w -> ResultsBound.P cfg (submit_resume cfg t fo w).
Proof.
  intros [Hc Hw]. unfold submit_resume.
  pose proof (ResultsBound.settle_ok cfg Hmax t fo) as Ho.
  destruct (performApiSearch_settle cfg t fo) as [d|e]; simpl in Ho.
  - split; [|exact Ho].
    apply (ResultsBound.cache_set_ok cfg (limiter_record w) t d); [exact Hc|exact Ho].
  - destruct (negb _); split; assumption.
Qed.

Lemma bound_enter_ok : RunFacts.handler_ok (ResultsBound.P cfg) (handleEnter cfg).
Proof.
  intros w [Hc Hw]. unfold handleEnter.
  destruct (_ && _).
  - unfold performApiSearch_start. cbn [fst snd].
    split; [split; assumption|]. intros fo w2 H2. cbn [p_resume]. now apply submit_ok.
  - assert (H1 : forall s, ResultsBound.P cfg (setQuery s w)) by (intros s; split; assumption).
    assert (H0 : ResultsBound.P cfg w) by (split; assumption).
    destruct (results (apiResult w)); split; first [apply H1|exact H0|exact I].
Qed.

Lemma run_bound (evs : list Event) (m : SearchMode) :
  ResultsBound.P cfg (fst (run cfg (init_world m, []) evs)).
Proof.
  apply (RunFacts.run_ok cfg (ResultsBound.P cfg) bound_input_ok bound_debounce_ok bound_enter_ok).
  - intros w dt [Hc Hw]. split; assumption.
  - intros w m' [Hc Hw]. split; assumption.
  - intros w [Hc Hw]. split; [exact Hc|apply ResultsBound.bnd_nil].
  - split; [intros k e []|apply ResultsBound.bnd_nil].
  - constructor.
Qed.

End Run.

End ResultsRun.

(** Extra: in any run of the component from its initial state, with a
    non-negative [maxResults], the results on display never exceed
    [maxResults] and neither does the data of any cache entry: remote
    results are sliced in [performApiSearch], local ones in
    [performLocalSearch], and the cache is only fed remote results. *)
Theorem results_bounded_in_any_run (cfg : Config) (m : SearchMode) (evs : list Event) :
  0 <= maxResults cfg ->
  let w := fst (run cfg (init_world m, []) evs) in
  (List.length (results (apiResult w)) <= Z.to_nat (maxResults cfg))%nat /\
  (forall k e, In (k, e) (cache w) ->
     (List.length (SearchCache.data e) <= Z.to_nat (maxResults cfg))%nat).
Proof.
  intros Hmax w. destruct (ResultsRun.run_bound cfg Hmax evs m) as [Hc Hw].
  split; [exact Hw|exact Hc].
Qed.

Lemma results_bounded_in_any_run_witness :
  let w := fst (run default_config (init_world Instant, [])
                  [InputChange "john"; DebounceFire; Settle 0 (ok_response [john])]) in
  (List.length (results (apiResult w)) <= Z.to_nat (maxResults default_config))%nat /\
  (forall k e, In (k, e) (cache w) ->
     (List.length (SearchCache.data e) <= Z.to_nat (maxResults default_config))%nat).
Proof. apply results_bounded_in_any_run. cbn. lia. Defined.

(** ** [FilterPanel] and [Table] *)

Module TableFacts.

Lemma In_delete_filter (key : string) (kv : string * string) (f : Filters) :
  In kv (handleDelete key f) -> In kv f.
Proof. unfold handleDelete, JsMap.delete. intros H. now apply filter_In in H as [H _]. Qed.

Lemma In_set_same (k : string) (v : string) (f : Filters) : In (k, v) (JsMap.set k v f).
Proof.
  induction f as [|[k' v'] f IH]; simpl; [now left|].
  destruct (String.eqb k' k) eqn:E; simpl; [|now right].
  apply String.eqb_eq in E. subst k'. now left.
Qed.

End TableFacts.

(** Extra: removing a chip with [handleDelete] never hides a row of the
    table: every row shown before is still shown after. *)
Theorem delete_filter_never_hides_rows (key : string) (f : Filters) (data : list Item)
    (item : Item) :
  In item (filteredData f data) -> In item (filteredData (handleDelete key f) data).
Proof.
  unfold filteredData, row_passes. rewrite !filter_In.
  intros [Hin Hp]. split; [exact Hin|].
  rewrite forallb_forall in Hp |- *. intros kv Hkv.
  apply Hp. now apply (TableFacts.In_delete_filter key).
Qed.

Lemma delete_filter_never_hides_rows_witness :
  In [("category", JsStr "A"); ("brand", JsStr "x")]
     (filteredData (handleDelete "brand" [("category", "A"); ("brand", "x")])
        [[("category", JsStr "A"); ("brand", JsStr "x")]; [("category", JsStr "B")]]).
Proof.
  apply (delete_filter_never_hides_rows "brand" [("category", "A"); ("brand", "x")]
           [[("category", JsStr "A"); ("brand", JsStr "x")]; [("category", JsStr "B")]]).
  simpl. left. reflexivity.
Defined.

(** Extra: choosing the empty option of the category [select] and
    applying filters the table exactly as deleting the category filter
    does (the keys of [appliedFilters] being distinct, as an object's
    are): an empty value is skipped by [Table]. *)
Theorem empty_category_is_no_filter (f : Filters) (data : list Item) :
  CacheFacts.uniq (JsMap.keys f) = true ->
  filteredData (selectCategory "" f) data = filteredData (handleDelete "category" f) data.
Proof.
  intros Hu. unfold filteredData. apply filter_ext. intros item.
  unfold selectCategory, handleDelete, row_passes.
  induction f as [|[k v] f IH]; simpl in Hu |- *; [reflexivity|].
  apply andb_true_iff in Hu as [Hn Hu].
  destruct (String.eqb k "category") eqn:E; simpl.
  - apply String.eqb_eq in E. subst k.
    rewrite (CacheFacts.delete_absent "category" f) by now apply negb_true_iff.
    reflexivity.
  - rewrite ?E. simpl. now rewrite IH.
Qed.

Lemma empty_category_is_no_filter_witness :
  filteredData (selectCategory "" [("category", "A"); ("brand", "x")])
    [[("category", JsStr "A"); ("brand", JsStr "x")]; [("category", JsStr "B"); ("brand", JsStr "x")]] =
  filteredData (handleDelete "category" [("category", "A"); ("brand", "x")])
    [[("category", JsStr "A"); ("brand", JsStr "x")]; [("category", JsStr "B"); ("brand", JsStr "x")]].
Proof. apply empty_category_is_no_filter. reflexivity. Defined.

(** Extra: once a non-empty category [v] is chosen and applied, every row
    of the table has the string [v] under [category]. *)
Theorem applied_category_rows_match (v : string) (f : Filters) (data : list Item) (item : Item) :
  str_truthy v = true -> In item (filteredData (selectCategory v f) data) ->
  item_has item "category" v = true.
Proof.
  intros Hv Hin. unfold filteredData, row_passes in Hin.
  apply filter_In in Hin as [_ Hp]. rewrite forallb_forall in Hp.
  specialize (Hp ("category", v) (TableFacts.In_set_same "category" v f)).
  simpl in Hp. rewrite Hv in Hp. exact Hp.
Qed.

Lemma applied_category_rows_match_witness :
  item_has [("category", JsStr "A")] "category" "A" = true.
Proof.
  apply (applied_category_rows_match "A" [] [[("category", JsStr "A")]; [("category", JsNum 3)]]);
    [reflexivity|simpl; left; reflexivity].
Defined.

(** ** Local search *)

Module LocalFacts.

Lemma user_eqb_eq (u v : User) : user_eqb u v = true -> u = v.
Proof.
  destruct u as [i n e [c]], v as [i' n' e' [c']]. unfold user_eqb. simpl.
  intros H. apply andb_true_iff in H as [H H4]. apply andb_true_iff in H as [H H3].
  apply andb_true_iff in H as [H1 H2].
  apply Z.eqb_eq in H1. apply String.eqb_eq in H2, H3, H4. now subst.
Qed.





Section Local.
Variable fs : list UserField.
Variable lq : string.
Variable R : JsMap.t (list User).





End Local.

End LocalFacts.

